(** * Room / presence / session layer of the chat relay (server part of app.js)

    The server keeps one JavaScript [Map], [users], from socket id to
    [{ username, room }], and talks to its clients through socket.io rooms.
    This development embeds the socket handlers ([join], [message], [media],
    [typing], [stop-typing], [disconnect]) and [getRoomUsers] as functions on
    an explicit server state, and proves the properties of the room and
    session protocol about them. *)

From Stdlib Require Import List Bool Arith NArith ZArith Lia String Ascii.
From Stdlib Require Import DecimalString.
From Stdlib Require DecimalZ DecimalPos.
Import ListNotations.

(* ------------------------------------------------------------------ *)
(** ** JavaScript strings

    A JavaScript string is a sequence of UTF-16 code units; [slice] and
    [length] count code units and [trim] removes the code units of the
    ECMAScript classes WhiteSpace and LineTerminator from both ends. *)

Definition jsstring : Type := list N.

(** A string literal of the source (all of them are ASCII). *)
Definition lit (s : string) : jsstring :=
  map N_of_ascii (list_ascii_of_string s).

Module JsString.

Definition t : Type := jsstring.

Fixpoint eqb (a b : t) : bool :=
  match a, b with
  | [], [] => true
  | x :: a', y :: b' => N.eqb x y && eqb a' b'
  | _, _ => false
  end.

(** [!s] for a string [s]: true exactly on the empty string. *)
Definition is_empty (s : t) : bool :=
  match s with [] => true | _ :: _ => false end.

(** WhiteSpace and LineTerminator code units: TAB, LF, VT, FF, CR, SP, NBSP,
    U+1680, U+2000..U+200A, LS, PS, U+202F, U+205F, U+3000, U+FEFF. *)
Definition is_ws (c : N) : bool :=
  ((9 <=? c) && (c <=? 13) || (c =? 32) || (c =? 160) || (c =? 5760)
   || (8192 <=? c) && (c <=? 8202) || (c =? 8232) || (c =? 8233)
   || (c =? 8239) || (c =? 8287) || (c =? 12288) || (c =? 65279))%N.

(** [s.slice(0, n)] for a non-negative [n]. *)
Definition slice0 (n : nat) (s : t) : t := firstn n s.

Fixpoint trimStart (s : t) : t :=
  match s with
  | [] => []
  | c :: r => if is_ws c then trimStart r else s
  end.

Definition trimEnd (s : t) : t := rev (trimStart (rev s)).

(** [s.trim()] *)
Definition trim (s : t) : t := trimEnd (trimStart s).

(** [s.startsWith(p)] *)
Fixpoint startsWith (p s : t) : bool :=
  match p, s with
  | [], _ => true
  | x :: p', y :: s' => N.eqb x y && startsWith p' s'
  | _ :: _, [] => false
  end.

(** Decimal rendering of an integer of magnitude below 10^21, as a template
    literal gives it: the readings of the clock and the rounded random
    number. *)
Definition of_Z (z : Z) : t := lit (NilZero.string_of_int (Z.to_int z)).

End JsString.

(* ------------------------------------------------------------------ *)
(** ** JavaScript values carried by event payloads

    A field of a payload object holds any value the client chose to send.
    [JUndefined] is also what destructuring yields for an absent field.
    The handlers look at a field in three ways only: [!v], [String(v)] and
    [typeof v]; a number and an object are given by what these return.
    [JNum] is a number: whether it is [0], [-0] or [NaN] (the numbers that
    are falsy), and the string [String] returns for it, whatever its size
    and whether or not it is an integer.  [JObj] is an object or an array
    that [String] converts, with the string it returns (always truthy,
    never of type string).  An object that [String] cannot convert (its
    [toString] and [valueOf] give no primitive) makes the listener throw;
    such a field, like an event without a payload object, is not among the
    values modelled. *)

Inductive JsVal : Type :=
| JUndefined
| JNull
| JBool (b : bool)
| JNum (zero_or_nan : bool) (repr : jsstring)
| JStr (s : jsstring)
| JObj (repr : jsstring).

(** [String(v)] *)
Definition ToString (v : JsVal) : jsstring :=
  match v with
  | JUndefined => lit "undefined"
  | JNull => lit "null"
  | JBool true => lit "true"
  | JBool false => lit "false"
  | JNum _ repr => repr
  | JStr s => s
  | JObj repr => repr
  end.

(** ToBoolean: [!v] is [negb (truthy v)]. *)
Definition truthy (v : JsVal) : bool :=
  match v with
  | JUndefined | JNull => false
  | JBool b => b
  | JNum zero_or_nan _ => negb zero_or_nan
  | JStr s => negb (JsString.is_empty s)
  | JObj _ => true
  end.

(** [typeof v === 'string'], returning the string when it is one. *)
Definition as_string (v : JsVal) : option jsstring :=
  match v with JStr s => Some s | _ => None end.

(* ------------------------------------------------------------------ *)
(** ** The Connection Registry: [const users = new Map()]

    A [Map] keeps its entries in insertion order with one entry per key:
    [set] on a present key replaces the value where it stands, [set] on an
    absent key appends, [delete] removes the entry. *)

Definition SocketId := jsstring.

Record Session : Type := mkSession { username : jsstring; room : jsstring }.

Module JsMap.

Definition t := list (SocketId * Session).

Definition empty : t := [].

Fixpoint get (k : SocketId) (m : t) : option Session :=
  match m with
  | [] => None
  | (k', v) :: m' => if JsString.eqb k' k then Some v else get k m'
  end.

Fixpoint set (k : SocketId) (v : Session) (m : t) : t :=
  match m with
  | [] => [(k, v)]
  | (k', v') :: m' =>
      if JsString.eqb k' k then (k', v) :: m' else (k', v') :: set k v m'
  end.

Fixpoint delete (k : SocketId) (m : t) : t :=
  match m with
  | [] => []
  | (k', v') :: m' =>
      if JsString.eqb k' k then delete k m' else (k', v') :: delete k m'
  end.

Definition keys (m : t) : list SocketId := map fst m.

(** How many entries the map holds for key [k]. *)
Definition entries_for (k : SocketId) (m : t) : nat :=
  List.length (filter (fun e => JsString.eqb (fst e) k) m).

End JsMap.

(* ------------------------------------------------------------------ *)
(** ** socket.io rooms

    What the server uses of socket.io, as its documentation gives it: a
    socket is a member of any number of rooms; on connection it joins the room
    named by its own id; [socket.join(r)] adds it to [r] and leaves its other
    rooms as they are; when the connection closes the socket has left all its
    rooms before the [disconnect] listeners run.  [io.to(r).emit] goes to the
    sockets that are in [r] at that moment.  [socket.to(r).emit] excludes
    the room named by the sender's id: it goes to the sockets that are in [r]
    and not in that room, so neither to the sender, which is in the room of
    its own id for as long as it is connected, nor to any socket that joined
    a room of that name. *)

Module Adapter.

(** The memberships (socket, room), one pair per membership. *)
Definition t := list (SocketId * jsstring).

Definition empty : t := [].

Definition is_member (sid : SocketId) (r : jsstring) (a : t) : bool :=
  existsb (fun m => JsString.eqb (fst m) sid && JsString.eqb (snd m) r) a.

Definition add (sid : SocketId) (r : jsstring) (a : t) : t :=
  if is_member sid r a then a else a ++ [(sid, r)].

Definition delAll (sid : SocketId) (a : t) : t :=
  filter (fun m => negb (JsString.eqb (fst m) sid)) a.

Definition sockets_in (r : jsstring) (a : t) : list SocketId :=
  map fst (filter (fun m => JsString.eqb (snd m) r) a).

End Adapter.

(* ------------------------------------------------------------------ *)
(** ** Events sent by the server *)

Inductive ServerEvent : Type :=
| EvSystem (message : jsstring) (timestamp : Z)
| EvRoomUsers (names : list jsstring)
| EvMessage (id uname text : jsstring) (timestamp : Z)
| EvMedia (id uname url mimetype : jsstring) (timestamp : Z)
| EvTyping (uname : jsstring)
| EvStopTyping (uname : jsstring).

(** One [emit]: the room it is addressed to, the socket whose own room is
    left out (for [socket.to]), the sockets it reaches, and the event. *)
Record Emission : Type := mkEmission {
  to_room : jsstring;
  except : option SocketId;
  recipients : list SocketId;
  payload : ServerEvent
}.

(** [io.to(r).emit(ev)] *)
Definition io_to (a : Adapter.t) (r : jsstring) (ev : ServerEvent) : Emission :=
  mkEmission r None (Adapter.sockets_in r a) ev.

(** [socket.to(r).emit(ev)] for the socket [sid] *)
Definition socket_to (a : Adapter.t) (sid : SocketId) (r : jsstring)
    (ev : ServerEvent) : Emission :=
  mkEmission r (Some sid)
    (filter (fun s => negb (Adapter.is_member s sid a))
            (Adapter.sockets_in r a)) ev.

(* ------------------------------------------------------------------ *)
(** ** Server state and handlers *)

Record Server : Type := mkServer {
  users : JsMap.t;       (* const users = new Map() *)
  rooms : Adapter.t      (* socket.io's room memberships *)
}.

Definition init : Server := mkServer JsMap.empty Adapter.empty.

(** [function getRoomUsers(room)]: the loop pushes the username of every
    entry whose room is [room], in the map's order. *)
Definition getRoomUsers (users : JsMap.t) (room_ : jsstring) : list jsstring :=
  fold_left
    (fun roomUsers entry =>
       if JsString.eqb (room (snd entry)) room_
       then roomUsers ++ [username (snd entry)]
       else roomUsers)
    users [].

(** [String(v).slice(0, n).trim()] *)
Definition safe (n : nat) (v : JsVal) : jsstring :=
  JsString.trim (JsString.slice0 n (ToString v)).

(** [socket.on('join', ({ username, room }) => ...)]; [now] is what
    [Date.now()] returns. *)
Definition on_join (st : Server) (sid : SocketId) (username_ room_ : JsVal)
    (now : Z) : Server * list Emission :=
  if negb (truthy username_) || negb (truthy room_) then (st, []) else
  let safeUsername := safe 30 username_ in
  let safeRoom := safe 30 room_ in
  if JsString.is_empty safeUsername || JsString.is_empty safeRoom
  then (st, []) else
  let users' := JsMap.set sid (mkSession safeUsername safeRoom) (users st) in
  let rooms' := Adapter.add sid safeRoom (rooms st) in
  (mkServer users' rooms',
   [ socket_to rooms' sid safeRoom
       (EvSystem (safeUsername ++ lit " joined the room") now);
     io_to rooms' safeRoom (EvRoomUsers (getRoomUsers users' safeRoom)) ]).

(** [socket.on('message', ({ text }) => ...)]; [now_id] and [now_ts] are the
    two readings of [Date.now()], for [id] and for [timestamp]. *)
Definition on_message (st : Server) (sid : SocketId) (text : JsVal)
    (now_id now_ts : Z) : Server * list Emission :=
  match JsMap.get sid (users st) with
  | None => (st, [])
  | Some user =>
      let safeText := safe 2000 text in
      if JsString.is_empty safeText then (st, []) else
      (st, [ io_to (rooms st) (room user)
               (EvMessage (sid ++ lit "-" ++ JsString.of_Z now_id)
                  (username user) safeText now_ts) ])
  end.

(** [socket.on('media', ({ url, mimetype }) => ...)] *)
Definition on_media (st : Server) (sid : SocketId) (url mimetype : JsVal)
    (now_id now_ts : Z) : Server * list Emission :=
  match JsMap.get sid (users st) with
  | None => (st, [])
  | Some user =>
      match as_string url with
      | None => (st, [])
      | Some url_ =>
          if negb (JsString.startsWith (lit "/uploads/") url_) then (st, [])
          else
          (st, [ io_to (rooms st) (room user)
                   (EvMedia (sid ++ lit "-" ++ JsString.of_Z now_id)
                      (username user) url_ (ToString mimetype) now_ts) ])
      end
  end.

(** [socket.on('typing', ...)] *)
Definition on_typing (st : Server) (sid : SocketId) : Server * list Emission :=
  match JsMap.get sid (users st) with
  | None => (st, [])
  | Some user =>
      (st, [ socket_to (rooms st) sid (room user) (EvTyping (username user)) ])
  end.

(** [socket.on('stop-typing', ...)] *)
Definition on_stop_typing (st : Server) (sid : SocketId)
    : Server * list Emission :=
  match JsMap.get sid (users st) with
  | None => (st, [])
  | Some user =>
      (st, [ socket_to (rooms st) sid (room user)
               (EvStopTyping (username user)) ])
  end.

(** [socket.on('disconnect', ...)]: the listener itself. *)
Definition on_disconnect (st : Server) (sid : SocketId) (now : Z)
    : Server * list Emission :=
  match JsMap.get sid (users st) with
  | None => (st, [])
  | Some user =>
      let users' := JsMap.delete sid (users st) in
      (mkServer users' (rooms st),
       [ socket_to (rooms st) sid (room user)
           (EvSystem (username user ++ lit " left the room") now);
         io_to (rooms st) (room user)
           (EvRoomUsers (getRoomUsers users' (room user))) ])
  end.

(** What reaches the server: a new connection, or an event of a connection
    together with the readings of the clock its handler takes. *)
Inductive Input : Type :=
| Connect (sid : SocketId)
| Join (sid : SocketId) (username_ room_ : JsVal) (now : Z)
| Message (sid : SocketId) (text : JsVal) (now_id now_ts : Z)
| Media (sid : SocketId) (url mimetype : JsVal) (now_id now_ts : Z)
| Typing (sid : SocketId)
| StopTyping (sid : SocketId)
| Disconnect (sid : SocketId) (now : Z).

(** One event runs to completion before the next one is looked at. *)
Definition step (st : Server) (i : Input) : Server * list Emission :=
  match i with
  | Connect sid => (mkServer (users st) (Adapter.add sid sid (rooms st)), [])
  | Join sid u r now => on_join st sid u r now
  | Message sid text t1 t2 => on_message st sid text t1 t2
  | Media sid url mt t1 t2 => on_media st sid url mt t1 t2
  | Typing sid => on_typing st sid
  | StopTyping sid => on_stop_typing st sid
  | Disconnect sid now =>
      on_disconnect (mkServer (users st) (Adapter.delAll sid (rooms st))) sid now
  end.

(** The state after a sequence of inputs, and everything emitted on the way. *)
Fixpoint run (st : Server) (inputs : list Input) : Server * list Emission :=
  match inputs with
  | [] => (st, [])
  | i :: rest =>
      let (st1, out1) := step st i in
      let (st2, out2) := run st1 rest in
      (st2, out1 ++ out2)
  end.

Definition state_after (inputs : list Input) : Server := fst (run init inputs).

(** The connection [sid] is in state Joined, with session [s]. *)
Definition joined (st : Server) (sid : SocketId) (s : Session) : Prop :=
  JsMap.get sid (users st) = Some s.

(** The members of room [r] as the specification words it: the connections
    whose current session's room is [r]. *)
Definition member_of (st : Server) (r : jsstring) (sid : SocketId) : Prop :=
  exists s, joined st sid s /\ room s = r.

(** The connection [sid] is in the socket.io room [r]. *)
Definition in_room (st : Server) (r : jsstring) (sid : SocketId) : Prop :=
  In (sid, r) (rooms st).

(** Both guards of the [join] handler pass: neither field is falsy and
    neither is empty once coerced, truncated and trimmed. *)
Definition valid_join (username_ room_ : JsVal) : bool :=
  truthy username_ && truthy room_ &&
  negb (JsString.is_empty (safe 30 username_)) &&
  negb (JsString.is_empty (safe 30 room_)).

(* ------------------------------------------------------------------ *)
(** ** Invariant of the server state

    The registry holds one entry per socket id, and every socket with a
    session is a member of the socket.io room its session names. *)

Record consistent (st : Server) : Prop := {
  cons_nodup : NoDup (JsMap.keys (users st));
  cons_member : forall sid s,
    JsMap.get sid (users st) = Some s -> In (sid, room s) (rooms st)
}.

(* ------------------------------------------------------------------ *)
(** ** Sample sessions *)

Definition sockA : SocketId := lit "sockA".
Definition sockB : SocketId := lit "sockB".
Definition alice : jsstring := lit "alice".
Definition bob : jsstring := lit "bob".
Definition lobby : jsstring := lit "lobby".
Definition den : jsstring := lit "den".
Definition hi : jsstring := lit "hi".

(** alice, then bob, join the lobby. *)
Definition two_in_lobby : list Input :=
  [ Connect sockA; Join sockA (JStr alice) (JStr lobby) 1;
    Connect sockB; Join sockB (JStr bob) (JStr lobby) 2 ].

(** alice joins the lobby and then, on the same connection, the den; bob
    joins the lobby afterwards. *)
Definition rejoined : list Input :=
  [ Connect sockA; Join sockA (JStr alice) (JStr lobby) 1;
    Join sockA (JStr alice) (JStr den) 2;
    Connect sockB; Join sockB (JStr bob) (JStr lobby) 3 ].

(** bob joins the room that bears the id of alice's connection. *)
Definition bob_in_room_sockA : list Input :=
  [ Connect sockA; Connect sockB; Join sockB (JStr bob) (JStr sockA) 1 ].

(** The same, and then bob joins the lobby on the same connection. *)
Definition bob_moved_to_lobby : list Input :=
  bob_in_room_sockA ++ [ Join sockB (JStr bob) (JStr lobby) 2 ].

(** 2000 spaces followed by "hi". *)
Definition padded : jsstring := repeat 32%N 2000 ++ hi.

(* ------------------------------------------------------------------ *)
(** ** Bookkeeping on inputs and sessions *)

(** The connection an input belongs to. *)
Definition sender (i : Input) : SocketId :=
  match i with
  | Connect sid | Join sid _ _ _ | Message sid _ _ _ | Media sid _ _ _ _
  | Typing sid | StopTyping sid | Disconnect sid _ => sid
  end.

(** The inputs whose handlers write to [users]: [join] and [disconnect]. *)
Definition writes_registry (i : Input) : bool :=
  match i with
  | Join _ _ _ _ | Disconnect _ _ => true
  | _ => false
  end.

(** A string as [String(v).slice(0, n).trim()] leaves it: not empty, at most
    [n] code units, no white space at either end. *)
Definition clean (n : nat) (s : jsstring) : Prop :=
  s <> [] /\ List.length s <= n /\ JsString.trim s = s.

(** The synthetic id of a chat or media message. *)
Definition event_id (ev : ServerEvent) : option jsstring :=
  match ev with
  | EvMessage id _ _ _ | EvMedia id _ _ _ _ => Some id
  | _ => None
  end.

(** The reading of the clock a [message] or [media] input takes for its id. *)
Definition id_clock (i : Input) : Z :=
  match i with
  | Message _ _ now_id _ | Media _ _ _ now_id _ => now_id
  | _ => 0
  end.

(** The username an event speaks for, when it has one. *)
Definition speaker (ev : ServerEvent) : option jsstring :=
  match ev with
  | EvMessage _ u _ _ | EvMedia _ u _ _ _ | EvTyping u | EvStopTyping u =>
      Some u
  | EvSystem _ _ | EvRoomUsers _ => None
  end.

(* ------------------------------------------------------------------ *)
(** ** The upload endpoint

    The callbacks the server hands to multer and express: the storage's
    [filename], the [fileFilter], the [/upload] route and the error
    handler.  [path.extname], [Date.now()] and
    [Math.round(Math.random() * 1e6)] are inputs of [filename]. *)

Module Upload.

Definition ALLOWED_MIME_TYPES : list jsstring :=
  [ lit "image/jpeg"; lit "image/png"; lit "image/gif"; lit "image/webp";
    lit "video/mp4"; lit "video/webm"; lit "audio/mpeg"; lit "audio/ogg";
    lit "application/pdf" ].

(** [xs.includes(s)] on an array of strings, [set.has(s)] on a set of them. *)
Definition includes (xs : list jsstring) (s : jsstring) : bool :=
  existsb (JsString.eqb s) xs.

(** The character class [a-zA-Z0-9.] of the sanitising regular expression. *)
Definition is_ext_char (c : N) : bool :=
  ((97 <=? c) && (c <=? 122) || (65 <=? c) && (c <=? 90)
   || (48 <=? c) && (c <=? 57) || (c =? 46))%N.

(** [ext.replace(/[^a-zA-Z0-9.]/g, '')] *)
Definition sanitize (ext : jsstring) : jsstring := filter is_ext_char ext.

(** The storage's [filename] callback: [extname] is
    [path.extname(file.originalname)], [now] and [rnd] are the clock reading
    and the rounded random number. *)
Definition filename (extname : jsstring) (now rnd : Z) : jsstring :=
  let ext := sanitize extname in
  JsString.of_Z now ++ lit "-" ++ JsString.of_Z rnd ++ ext.

(** What a multer callback reports: [cb(null, true)] or [cb(new Error(m))]. *)
Inductive FilterResult : Type :=
| Accept
| Reject (message : jsstring).

Definition fileFilter (mimetype : jsstring) : FilterResult :=
  if includes ALLOWED_MIME_TYPES mimetype then Accept
  else Reject (lit "File type not allowed").

(** [req.file] once multer has stored the file. *)
Record File : Type := mkFile { file_filename : jsstring; file_mimetype : jsstring }.

Inductive Body : Type :=
| ErrorBody (error : jsstring)
| UploadBody (url mimetype : jsstring).

Record Response : Type := mkResponse { status : Z; body : Body }.

(** [app.post('/upload', upload.single('media'), (req, res) => ...)]: the
    route itself, given [req.file]. *)
Definition upload_route (file : option File) : Response :=
  match file with
  | None => mkResponse 400 (ErrorBody (lit "No file uploaded"))
  | Some f =>
      mkResponse 200
        (UploadBody (lit "/uploads/" ++ file_filename f) (file_mimetype f))
  end.

Definition SAFE_ERROR_MESSAGES : list jsstring :=
  [ lit "File type not allowed"; lit "No file uploaded" ].

(** [app.use((err, _req, res, _next) => ...)], given [err.message]. *)
Definition error_handler (err_message : JsVal) : Response :=
  let message :=
    match as_string err_message with
    | Some m => if includes SAFE_ERROR_MESSAGES m then m else lit "Bad request"
    | None => lit "Bad request"
    end in
  mkResponse 400 (ErrorBody message).

End Upload.

(* ------------------------------------------------------------------ *)
(** ** The browser client

    The client's own variables ([myUsername], [myRoom], [typingUsers]), the
    text of the typing indicator and the active screen; the other DOM nodes
    are left out.  The values of the input fields come with the action that
    reads them. *)

Module Client.

Inductive Screen : Type := LoginScreen | ChatScreen.

Record t : Type := mk {
  myUsername : jsstring;
  myRoom : jsstring;
  typingUsers : list jsstring;    (* new Set() *)
  typingEl : jsstring;            (* typingEl.textContent *)
  screen : Screen
}.

(** The page as loaded: the login screen carries the [active] class. *)
Definition initial : t := mk [] [] [] [] LoginScreen.

(** What the client sends over its socket. *)
Inductive Emit : Type :=
| EmitJoin (username_ room_ : jsstring)
| EmitMessage (text : jsstring)
| EmitMedia (url mimetype : JsVal)
| EmitTyping
| EmitStopTyping
| EmitDisconnect
| EmitConnect.

(** [Set.prototype.add] and [delete], on a set kept in insertion order. *)
Definition set_add (x : jsstring) (s : list jsstring) : list jsstring :=
  if existsb (JsString.eqb x) s then s else s ++ [x].

Definition set_delete (x : jsstring) (s : list jsstring) : list jsstring :=
  filter (fun y => negb (JsString.eqb y x)) s.

(** [xs.join(sep)] *)
Fixpoint array_join (sep : jsstring) (xs : list jsstring) : jsstring :=
  match xs with
  | [] => []
  | [x] => x
  | x :: rest => x ++ sep ++ array_join sep rest
  end.

(** [updateTypingIndicator()]: the text it gives the indicator. *)
Definition updateTypingIndicator (typingUsers_ : list jsstring) : jsstring :=
  if Nat.eqb (List.length typingUsers_) 0 then []
  else
    let names := array_join (lit ", ") typingUsers_ in
    names ++ lit " "
      ++ (if Nat.eqb (List.length typingUsers_) 1 then lit "is" else lit "are")
      ++ lit " typing" ++ [8230%N].

(** [function join()] *)
Definition join (c : t) (usernameInput roomInput : jsstring) : t * list Emit :=
  let username_ := JsString.trim usernameInput in
  let room_ := JsString.trim roomInput in
  if JsString.is_empty username_ || JsString.is_empty room_ then (c, [])
  else (mk username_ room_ (typingUsers c) (typingEl c) ChatScreen,
        [EmitJoin username_ room_]).

(** The click handler of the leave button. *)
Definition leave (c : t) : t * list Emit :=
  (mk [] [] [] [] LoginScreen, [EmitDisconnect; EmitConnect]).

(** [function sendMessage()] *)
Definition sendMessage (c : t) (messageInput : jsstring) : t * list Emit :=
  let text := JsString.trim messageInput in
  if JsString.is_empty text then (c, [])
  else (c, [EmitMessage text; EmitStopTyping]).

(** The [input] listener of the message field: what it sends at once (the
    timer that sends [stop-typing] two seconds later is left out). *)
Definition on_input (c : t) : t * list Emit :=
  if JsString.is_empty (myRoom c) then (c, []) else (c, [EmitTyping]).

(** [socket.on('typing', ...)] and [socket.on('stop-typing', ...)] *)
Definition on_typing (c : t) (username_ : jsstring) : t * list Emit :=
  let users' := set_add username_ (typingUsers c) in
  (mk (myUsername c) (myRoom c) users' (updateTypingIndicator users')
      (screen c), []).

Definition on_stop_typing (c : t) (username_ : jsstring) : t * list Emit :=
  let users' := set_delete username_ (typingUsers c) in
  (mk (myUsername c) (myRoom c) users' (updateTypingIndicator users')
      (screen c), []).

(** The fields [error], [url] and [mimetype] of a response's JSON body,
    [undefined] when the body has no such field. *)
Definition body_error (b : Upload.Body) : JsVal :=
  match b with Upload.ErrorBody e => JStr e | Upload.UploadBody _ _ => JUndefined end.

Definition body_url (b : Upload.Body) : JsVal :=
  match b with Upload.UploadBody u _ => JStr u | Upload.ErrorBody _ => JUndefined end.

Definition body_mimetype (b : Upload.Body) : JsVal :=
  match b with Upload.UploadBody _ m => JStr m | Upload.ErrorBody _ => JUndefined end.

(** [res.ok]: the status is in 200..299. *)
Definition res_ok (res : Upload.Response) : bool :=
  (200 <=? Upload.status res)%Z && (Upload.status res <=? 299)%Z.

(** The [change] listener of the file input once the response of
    [POST /upload] is there: what it sends, and what it alerts. *)
Definition on_upload_response (res : Upload.Response)
    : list Emit * option jsstring :=
  if negb (res_ok res)
  then ([], Some (lit "Upload failed: "
                    ++ ToString (body_error (Upload.body res))))
  else ([EmitMedia (body_url (Upload.body res))
                   (body_mimetype (Upload.body res))], None).

(** [socket.on('reconnect', ...)] *)
Definition on_reconnect (c : t) : t * list Emit :=
  if negb (JsString.is_empty (myUsername c))
     && negb (JsString.is_empty (myRoom c))
  then (c, [EmitJoin (myUsername c) (myRoom c)])
  else (c, []).

(** [const isMe = username === myUsername] of [appendMessage] and
    [appendMedia]. *)
Definition isMe (c : t) (username_ : jsstring) : bool :=
  JsString.eqb username_ (myUsername c).

(** What happens in the page: the user acts, or the socket delivers. *)
Inductive Action : Type :=
| ClickJoin (usernameInput roomInput : jsstring)
| ClickLeave
| Send (messageInput : jsstring)
| TypeInput
| GotTyping (username_ : jsstring)
| GotStopTyping (username_ : jsstring)
| Reconnected.

Definition step (c : t) (a : Action) : t * list Emit :=
  match a with
  | ClickJoin u r => join c u r
  | ClickLeave => leave c
  | Send text => sendMessage c text
  | TypeInput => on_input c
  | GotTyping u => on_typing c u
  | GotStopTyping u => on_stop_typing c u
  | Reconnected => on_reconnect c
  end.

Fixpoint run (c : t) (actions : list Action) : t * list Emit :=
  match actions with
  | [] => (c, [])
  | a :: rest =>
      let (c1, out1) := step c a in
      let (c2, out2) := run c1 rest in
      (c2, out1 ++ out2)
  end.

(** What the client's variables satisfy at every moment: both names are
    trimmed strings, set together; the chat screen is shown exactly while
    they are set; the indicator shows the typing set, which has no
    repetition. *)
Record well_formed (c : t) : Prop := {
  wf_username : exists a, myUsername c = JsString.trim a;
  wf_room : exists b, myRoom c = JsString.trim b;
  wf_both : myUsername c <> [] <-> myRoom c <> [];
  wf_screen : screen c = ChatScreen <-> myRoom c <> [];
  wf_indicator : typingEl c = updateTypingIndicator (typingUsers c);
  wf_nodup : NoDup (typingUsers c)
}.

End Client.

(* ------------------------------------------------------------------ *)
(** ** Facts about strings *)

Lemma jseqb_eq (a b : jsstring) : JsString.eqb a b = true <-> a = b.
Proof.
  revert b; induction a as [|x a IH]; intros [|y b]; simpl;
    try (split; congruence).
  rewrite andb_true_iff, N.eqb_eq, IH. split.
  - intros [-> ->]; reflexivity.
  - intros H; inversion H; auto.
Qed.

Lemma jseqb_refl (a : jsstring) : JsString.eqb a a = true.
Proof. apply jseqb_eq; reflexivity. Qed.

Lemma jseqb_neq (a b : jsstring) : JsString.eqb a b = false <-> a <> b.
Proof.
  rewrite <- jseqb_eq. destruct (JsString.eqb a b); split; congruence.
Qed.

Lemma jseqb_sym (a b : jsstring) : JsString.eqb a b = JsString.eqb b a.
Proof.
  destruct (JsString.eqb b a) eqn:E.
  - apply jseqb_eq in E; subst; apply jseqb_refl.
  - apply jseqb_neq in E. apply jseqb_neq; congruence.
Qed.

Lemma is_empty_true (s : jsstring) : JsString.is_empty s = true <-> s = [].
Proof. destruct s; simpl; split; congruence. Qed.

Lemma is_empty_false (s : jsstring) : JsString.is_empty s = false <-> s <> [].
Proof. destruct s; simpl; split; congruence. Qed.

Lemma trimStart_length (s : jsstring) :
  List.length (JsString.trimStart s) <= List.length s.
Proof.
  induction s as [|c s IH]; simpl; auto.
  destruct (JsString.is_ws c); simpl; lia.
Qed.

Lemma trim_length (s : jsstring) :
  List.length (JsString.trim s) <= List.length s.
Proof.
  unfold JsString.trim, JsString.trimEnd.
  rewrite length_rev.
  eapply Nat.le_trans; [apply trimStart_length|].
  rewrite length_rev. apply trimStart_length.
Qed.

Lemma slice0_length (n : nat) (s : jsstring) :
  List.length (JsString.slice0 n s) <= n.
Proof. unfold JsString.slice0. apply firstn_le_length. Qed.

Lemma trimStart_nil_iff (s : jsstring) :
  JsString.trimStart s = [] <-> forallb JsString.is_ws s = true.
Proof.
  induction s as [|c s IH]; simpl.
  - split; auto.
  - destruct (JsString.is_ws c); simpl; [exact IH | split; congruence].
Qed.

Lemma trimStart_head (s : jsstring) c r :
  JsString.trimStart s = c :: r -> JsString.is_ws c = false.
Proof.
  induction s as [|x s IH]; simpl; [congruence|].
  destruct (JsString.is_ws x) eqn:E; auto.
  intros H; inversion H; subst; exact E.
Qed.

Lemma forallb_rev {X} (f : X -> bool) (l : list X) :
  forallb f (rev l) = forallb f l.
Proof.
  induction l as [|x l IH]; simpl; auto.
  rewrite forallb_app, IH; simpl. rewrite andb_true_r. apply andb_comm.
Qed.

(** [trim] gives the empty string exactly on strings made of white space. *)
Lemma trim_nil_iff (s : jsstring) :
  JsString.trim s = [] <-> forallb JsString.is_ws s = true.
Proof.
  unfold JsString.trim, JsString.trimEnd. split.
  - intros H.
    assert (H1 : JsString.trimStart (rev (JsString.trimStart s)) = []).
    { destruct (JsString.trimStart (rev (JsString.trimStart s))) as [|x l];
        auto.
      simpl in H. destruct (rev l); discriminate. }
    apply trimStart_nil_iff in H1. rewrite forallb_rev in H1.
    destruct (JsString.trimStart s) as [|c r] eqn:E.
    + apply trimStart_nil_iff; exact E.
    + apply trimStart_head in E. simpl in H1. rewrite E in H1. discriminate.
  - intros H. apply trimStart_nil_iff in H. rewrite H. reflexivity.
Qed.

Lemma forallb_firstn {X} (f : X -> bool) (n : nat) (l : list X) :
  forallb f l = true -> forallb f (firstn n l) = true.
Proof.
  revert l; induction n as [|n IH]; intros [|x l]; simpl; auto.
  rewrite !andb_true_iff. intros [? ?]; auto.
Qed.

(** A text that trims to empty still does after truncation. *)
Lemma trim_slice0_nil (n : nat) (s : jsstring) :
  JsString.trim s = [] -> JsString.trim (JsString.slice0 n s) = [].
Proof.
  rewrite !trim_nil_iff. apply forallb_firstn.
Qed.

Lemma safe_length (n : nat) (v : JsVal) : List.length (safe n v) <= n.
Proof.
  unfold safe. eapply Nat.le_trans; [apply trim_length | apply slice0_length].
Qed.

(* ------------------------------------------------------------------ *)
(** ** Facts about the registry map *)

Section MapFacts.

Variable k : SocketId.

Lemma get_set_same v m : JsMap.get k (JsMap.set k v m) = Some v.
Proof.
  induction m as [|[k' v'] m IH]; simpl.
  - rewrite jseqb_refl; reflexivity.
  - destruct (JsString.eqb k' k) eqn:E; simpl; rewrite E; auto.
Qed.

Lemma get_set_other k2 v m :
  k2 <> k -> JsMap.get k2 (JsMap.set k v m) = JsMap.get k2 m.
Proof.
  intros Hne. induction m as [|[k' v'] m IH]; simpl.
  - apply jseqb_neq in Hne. rewrite jseqb_sym, Hne. reflexivity.
  - destruct (JsString.eqb k' k) eqn:E; simpl.
    + apply jseqb_eq in E; subst k'.
      apply jseqb_neq in Hne. rewrite jseqb_sym, Hne. reflexivity.
    + rewrite IH. reflexivity.
Qed.

Lemma get_delete_same m : JsMap.get k (JsMap.delete k m) = None.
Proof.
  induction m as [|[k' v'] m IH]; simpl; auto.
  destruct (JsString.eqb k' k) eqn:E; simpl; auto. rewrite E; auto.
Qed.

Lemma get_delete_other k2 m :
  k2 <> k -> JsMap.get k2 (JsMap.delete k m) = JsMap.get k2 m.
Proof.
  intros Hne. induction m as [|[k' v'] m IH]; simpl; auto.
  destruct (JsString.eqb k' k) eqn:E; simpl.
  - apply jseqb_eq in E; subst k'.
    apply jseqb_neq in Hne. rewrite jseqb_sym, Hne. exact IH.
  - rewrite IH. reflexivity.
Qed.

Lemma keys_set_present v m s :
  JsMap.get k m = Some s -> JsMap.keys (JsMap.set k v m) = JsMap.keys m.
Proof.
  induction m as [|[k' v'] m IH]; simpl; [discriminate|].
  destruct (JsString.eqb k' k) eqn:E; simpl; auto.
  intros H. rewrite (IH H). reflexivity.
Qed.

Lemma keys_set_absent v m :
  JsMap.get k m = None -> JsMap.keys (JsMap.set k v m) = JsMap.keys m ++ [k].
Proof.
  induction m as [|[k' v'] m IH]; simpl; auto.
  destruct (JsString.eqb k' k) eqn:E; simpl; [discriminate|].
  intros H. rewrite (IH H). reflexivity.
Qed.

Lemma get_None_keys m : JsMap.get k m = None <-> ~ In k (JsMap.keys m).
Proof.
  induction m as [|[k' v'] m IH]; simpl.
  - split; auto.
  - destruct (JsString.eqb k' k) eqn:E.
    + apply jseqb_eq in E. split; [discriminate | intros H; elim H; auto].
    + apply jseqb_neq in E. rewrite IH. split; [intros H [?|?]|]; tauto.
Qed.

Lemma length_set_present v m s :
  JsMap.get k m = Some s -> List.length (JsMap.set k v m) = List.length m.
Proof.
  intros H.
  rewrite <- (length_map fst (JsMap.set k v m)), <- (length_map fst m).
  fold (JsMap.keys (JsMap.set k v m)); fold (JsMap.keys m).
  erewrite keys_set_present; eauto.
Qed.

Lemma keys_delete_incl m x :
  In x (JsMap.keys (JsMap.delete k m)) -> In x (JsMap.keys m).
Proof.
  induction m as [|[k' v'] m IH]; simpl; auto.
  destruct (JsString.eqb k' k); simpl; intuition.
Qed.

Lemma NoDup_keys_delete m :
  NoDup (JsMap.keys m) -> NoDup (JsMap.keys (JsMap.delete k m)).
Proof.
  induction m as [|[k' v'] m IH]; simpl; auto.
  intros H; inversion H; subst.
  destruct (JsString.eqb k' k); simpl; auto.
  constructor; auto. intros Hin; apply keys_delete_incl in Hin; auto.
Qed.

Lemma NoDup_keys_set v m :
  NoDup (JsMap.keys m) -> NoDup (JsMap.keys (JsMap.set k v m)).
Proof.
  intros H. destruct (JsMap.get k m) eqn:E.
  - erewrite keys_set_present; eauto.
  - rewrite keys_set_absent by auto.
    apply NoDup_app; auto.
    + repeat constructor; auto.
    + intros x Hx [<-|[]]. apply get_None_keys in E; auto.
Qed.

Lemma entries_for_absent m :
  ~ In k (JsMap.keys m) -> JsMap.entries_for k m = 0.
Proof.
  unfold JsMap.entries_for.
  induction m as [|[k' v'] m IH]; simpl; auto.
  intros H. destruct (JsString.eqb k' k) eqn:E.
  - apply jseqb_eq in E; tauto.
  - apply IH; tauto.
Qed.

Lemma entries_for_NoDup m :
  NoDup (JsMap.keys m) -> JsMap.entries_for k m <= 1.
Proof.
  induction m as [|[k' v'] m IH]; simpl; auto.
  intros H; inversion H; subst.
  unfold JsMap.entries_for in *; simpl.
  destruct (JsString.eqb k' k) eqn:E; auto.
  apply jseqb_eq in E; subst k'. simpl.
  fold (JsMap.entries_for k m). rewrite entries_for_absent; auto.
Qed.

Lemma entries_for_present m s :
  JsMap.get k m = Some s -> 1 <= JsMap.entries_for k m.
Proof.
  unfold JsMap.entries_for.
  induction m as [|[k' v'] m IH]; simpl; [discriminate|].
  destruct (JsString.eqb k' k); simpl; auto. lia.
Qed.

Lemma get_In m s : JsMap.get k m = Some s -> In (k, s) m.
Proof.
  induction m as [|[k' v'] m IH]; simpl; [discriminate|].
  destruct (JsString.eqb k' k) eqn:E; auto.
  apply jseqb_eq in E; subst. intros H; inversion H; auto.
Qed.

Lemma In_get m s :
  NoDup (JsMap.keys m) -> In (k, s) m -> JsMap.get k m = Some s.
Proof.
  induction m as [|[k' v'] m IH]; simpl; [tauto|].
  intros H; inversion H; subst. intros [Heq|Hin].
  - inversion Heq; subst. rewrite jseqb_refl; reflexivity.
  - destruct (JsString.eqb k' k) eqn:E; auto.
    apply jseqb_eq in E; subst k'.
    elim H2. apply (in_map fst) in Hin; exact Hin.
Qed.

End MapFacts.

(* ------------------------------------------------------------------ *)
(** ** The room directory: [getRoomUsers] against the registry *)

(** The loop of [getRoomUsers] is a filter followed by a projection. *)
Lemma getRoomUsers_filter (m : JsMap.t) (r : jsstring) :
  getRoomUsers m r =
  map (fun e => username (snd e))
      (filter (fun e => JsString.eqb (room (snd e)) r) m).
Proof.
  unfold getRoomUsers.
  set (f := fun (roomUsers : list jsstring) (entry : SocketId * Session) =>
              if JsString.eqb (room (snd entry)) r
              then roomUsers ++ [username (snd entry)] else roomUsers).
  assert (G : forall acc,
    fold_left f m acc =
    acc ++ map (fun e => username (snd e))
               (filter (fun e => JsString.eqb (room (snd e)) r) m)).
  { induction m as [|e m IH]; intros acc; simpl.
    - rewrite app_nil_r; reflexivity.
    - rewrite IH. unfold f.
      destruct (JsString.eqb (room (snd e)) r); simpl; auto.
      rewrite <- app_assoc; reflexivity. }
  apply (G []).
Qed.

Lemma getRoomUsers_In (m : JsMap.t) (r u : jsstring) :
  In u (getRoomUsers m r) <->
  exists sid s, In (sid, s) m /\ room s = r /\ username s = u.
Proof.
  rewrite getRoomUsers_filter, in_map_iff. split.
  - intros [[sid s] [Hu Hin]]. apply filter_In in Hin as [Hin Hr].
    simpl in *. apply jseqb_eq in Hr. eauto.
  - intros (sid & s & Hin & Hr & Hu). exists (sid, s). split; auto.
    apply filter_In. split; auto. simpl. apply jseqb_eq; auto.
Qed.

Lemma delete_In (k : SocketId) (m : JsMap.t) sid s :
  In (sid, s) (JsMap.delete k m) <-> In (sid, s) m /\ sid <> k.
Proof.
  induction m as [|[k' v'] m IH]; simpl; [tauto|].
  destruct (JsString.eqb k' k) eqn:E.
  - apply jseqb_eq in E; subst k'. rewrite IH. split; [tauto|].
    intros [[H|H] Hne]; auto. inversion H; subst; tauto.
  - apply jseqb_neq in E. simpl. rewrite IH. split; [|tauto].
    intros [H|H]; [|tauto]. inversion H; subst; auto.
Qed.

(* ------------------------------------------------------------------ *)
(** ** Facts about room memberships *)

Lemma sockets_in_In (a : Adapter.t) (r : jsstring) (sid : SocketId) :
  In sid (Adapter.sockets_in r a) <-> In (sid, r) a.
Proof.
  unfold Adapter.sockets_in. rewrite in_map_iff. split.
  - intros [[s r'] [Hs Hin]]. apply filter_In in Hin as [Hin Hr].
    simpl in *. apply jseqb_eq in Hr. subst; auto.
  - intros Hin. exists (sid, r). split; auto.
    apply filter_In; split; auto. simpl. apply jseqb_refl.
Qed.

Lemma is_member_In (a : Adapter.t) (r : jsstring) (sid : SocketId) :
  Adapter.is_member sid r a = true <-> In (sid, r) a.
Proof.
  unfold Adapter.is_member. rewrite existsb_exists. split.
  - intros [[s r'] [Hin H]]. simpl in H.
    apply andb_true_iff in H as [H1 H2].
    apply jseqb_eq in H1, H2. subst; auto.
  - intros Hin. exists (sid, r). split; auto. simpl.
    rewrite !jseqb_refl; reflexivity.
Qed.

Lemma add_In (a : Adapter.t) sid r x :
  In x (Adapter.add sid r a) <-> In x a \/ x = (sid, r).
Proof.
  unfold Adapter.add. destruct (Adapter.is_member sid r a) eqn:E.
  - apply is_member_In in E. split; auto. intros [H| ->]; auto.
  - rewrite in_app_iff; simpl. intuition.
Qed.

Lemma delAll_In (a : Adapter.t) sid s r :
  In (s, r) (Adapter.delAll sid a) <-> In (s, r) a /\ s <> sid.
Proof.
  unfold Adapter.delAll. rewrite filter_In. simpl.
  rewrite negb_true_iff, jseqb_neq. tauto.
Qed.

(** Who an emission reaches. *)
Lemma io_to_recipients (a : Adapter.t) r ev sid :
  In sid (recipients (io_to a r ev)) <-> In (sid, r) a.
Proof. simpl. apply sockets_in_In. Qed.

Lemma socket_to_recipients (a : Adapter.t) sender r ev sid :
  In sid (recipients (socket_to a sender r ev)) <->
  In (sid, r) a /\ ~ In (sid, sender) a.
Proof.
  simpl. rewrite filter_In, sockets_in_In, negb_true_iff.
  rewrite <- (is_member_In a sender sid).
  destruct (Adapter.is_member sid sender a); split;
    intros [H1 H2]; split; auto; congruence.
Qed.

(* ------------------------------------------------------------------ *)
(** ** The invariant holds in every state the server reaches *)

Lemma consistent_init : consistent init.
Proof. split; simpl; [constructor | discriminate]. Qed.

Lemma on_join_cases (st : Server) sid u r now :
  (truthy u = true /\ truthy r = true /\ safe 30 u <> [] /\ safe 30 r <> [] /\
   on_join st sid u r now =
   (mkServer (JsMap.set sid (mkSession (safe 30 u) (safe 30 r)) (users st))
             (Adapter.add sid (safe 30 r) (rooms st)),
    [ socket_to (Adapter.add sid (safe 30 r) (rooms st)) sid (safe 30 r)
        (EvSystem (safe 30 u ++ lit " joined the room") now);
      io_to (Adapter.add sid (safe 30 r) (rooms st)) (safe 30 r)
        (EvRoomUsers
           (getRoomUsers
              (JsMap.set sid (mkSession (safe 30 u) (safe 30 r)) (users st))
              (safe 30 r))) ]))
  \/
  (~ (truthy u = true /\ truthy r = true /\ safe 30 u <> [] /\ safe 30 r <> [])
   /\ on_join st sid u r now = (st, [])).
Proof.
  unfold on_join.
  destruct (truthy u) eqn:Tu; simpl; [|right; split; [intuition congruence|auto]].
  destruct (truthy r) eqn:Tr; simpl; [|right; split; [intuition congruence|auto]].
  destruct (JsString.is_empty (safe 30 u)) eqn:Eu; simpl.
  { apply is_empty_true in Eu. right; split; [tauto|auto]. }
  destruct (JsString.is_empty (safe 30 r)) eqn:Er; simpl.
  { apply is_empty_true in Er. right; split; [tauto|auto]. }
  apply is_empty_false in Eu, Er. left. repeat split; auto.
Qed.

Lemma consistent_step (st : Server) (i : Input) :
  consistent st -> consistent (fst (step st i)).
Proof.
  intros [Hnd Hmem]. destruct i as [sid|sid u r now|sid text t1 t2
    |sid url mt t1 t2|sid|sid|sid now]; simpl.
  - split; simpl; auto. intros s0 s H. apply add_In; auto.
  - destruct (on_join_cases st sid u r now) as
      [(_ & _ & _ & _ & ->)|(_ & ->)]; simpl; [|split; auto].
    split; simpl.
    + apply NoDup_keys_set; auto.
    + intros s0 s H. apply add_In.
      destruct (JsString.eqb s0 sid) eqn:E.
      * apply jseqb_eq in E; subst s0. rewrite get_set_same in H.
        inversion H; subst; simpl; auto.
      * apply jseqb_neq in E. rewrite get_set_other in H by auto. auto.
  - unfold on_message. destruct (JsMap.get sid (users st)); simpl;
      [|split; auto].
    destruct (JsString.is_empty (safe 2000 text)); simpl; split; auto.
  - unfold on_media. destruct (JsMap.get sid (users st)); simpl;
      [|split; auto].
    destruct (as_string url); simpl; [|split; auto].
    destruct (negb _); simpl; split; auto.
  - unfold on_typing. destruct (JsMap.get sid (users st)); simpl; split; auto.
  - unfold on_stop_typing.
    destruct (JsMap.get sid (users st)); simpl; split; auto.
  - unfold on_disconnect; simpl.
    destruct (JsMap.get sid (users st)) eqn:G; simpl.
    + split; simpl.
      * apply NoDup_keys_delete; auto.
      * intros s0 s' H. apply delAll_In.
        destruct (JsString.eqb s0 sid) eqn:E.
        { apply jseqb_eq in E; subst s0. rewrite get_delete_same in H.
          discriminate. }
        apply jseqb_neq in E. rewrite get_delete_other in H by auto. auto.
    + split; simpl; auto.
      intros s0 s' H. apply delAll_In. split; auto.
      intros ->. congruence.
Qed.

Lemma consistent_run (inputs : list Input) (st : Server) :
  consistent st -> consistent (fst (run st inputs)).
Proof.
  revert st; induction inputs as [|i rest IH]; intros st H; simpl; auto.
  pose proof (consistent_step st i H) as H1.
  destruct (step st i) as [st1 out1]; simpl in H1.
  specialize (IH st1 H1).
  destruct (run st1 rest) as [st2 out2]; simpl in *; auto.
Qed.

Lemma consistent_state_after (inputs : list Input) :
  consistent (state_after inputs).
Proof. apply consistent_run, consistent_init. Qed.

(* ------------------------------------------------------------------ *)
(** ** The [join] handler *)

Lemma valid_join_true (u r : JsVal) :
  valid_join u r = true <->
  truthy u = true /\ truthy r = true /\ safe 30 u <> [] /\ safe 30 r <> [].
Proof.
  unfold valid_join.
  rewrite !andb_true_iff, !negb_true_iff, !is_empty_false. tauto.
Qed.

(** A string field passes the first guard whenever it passes the second. *)
Lemma safe_nonempty_truthy (n : nat) (s : jsstring) :
  safe n (JStr s) <> [] -> truthy (JStr s) = true.
Proof.
  destruct s as [|c s]; simpl; auto.
  unfold safe; simpl. destruct n; simpl; intros H; elim H; reflexivity.
Qed.

Lemma valid_join_strings (un rm : jsstring) :
  valid_join (JStr un) (JStr rm) = true <->
  safe 30 (JStr un) <> [] /\ safe 30 (JStr rm) <> [].
Proof.
  rewrite valid_join_true. split; [tauto|].
  intros [Hu Hr]. repeat split; auto; eapply safe_nonempty_truthy; eauto.
Qed.

(** A falsy field (absent, [null], [false], [0], the empty string) makes
    the handler return at its first guard. *)
Lemma on_join_falsy (st : Server) sid u r now :
  truthy u = false \/ truthy r = false -> on_join st sid u r now = (st, []).
Proof.
  unfold on_join. intros [-> | ->]; simpl; auto.
  destruct (truthy u); reflexivity.
Qed.

Lemma on_join_valid (st : Server) sid u r now :
  valid_join u r = true ->
  on_join st sid u r now =
   (mkServer (JsMap.set sid (mkSession (safe 30 u) (safe 30 r)) (users st))
             (Adapter.add sid (safe 30 r) (rooms st)),
    [ socket_to (Adapter.add sid (safe 30 r) (rooms st)) sid (safe 30 r)
        (EvSystem (safe 30 u ++ lit " joined the room") now);
      io_to (Adapter.add sid (safe 30 r) (rooms st)) (safe 30 r)
        (EvRoomUsers
           (getRoomUsers
              (JsMap.set sid (mkSession (safe 30 u) (safe 30 r)) (users st))
              (safe 30 r))) ]).
Proof.
  intros H. apply valid_join_true in H.
  destruct (on_join_cases st sid u r now) as [(_ & _ & _ & _ & E)|[N _]];
    [exact E | tauto].
Qed.

Lemma on_join_invalid (st : Server) sid u r now :
  valid_join u r = false -> on_join st sid u r now = (st, []).
Proof.
  intros H.
  destruct (on_join_cases st sid u r now) as [(A & B & C & D & _)|[_ E]];
    [|exact E].
  assert (V : valid_join u r = true) by (apply valid_join_true; auto).
  congruence.
Qed.

(** C4 as stated fails: a username of 30 spaces followed by "bob" is not
    empty after trimming and truncating to 30 code units (it is "bob"), and
    yet the handler, which truncates first and trims afterwards, drops the
    join. *)
Lemma C4_padded_username_dropped :
  JsString.slice0 30 (JsString.trim (repeat 32%N 30 ++ bob)) = bob /\
  JsString.slice0 30 (JsString.trim lobby) = lobby /\
  on_join (state_after [Connect sockA]) sockA
          (JStr (repeat 32%N 30 ++ bob)) (JStr lobby) 1 =
    (state_after [Connect sockA], []).
Proof. repeat split; reflexivity. Qed.

(** C4, amended.  A [join] whose fields are strings succeeds exactly when
    both are non-empty once truncated to 30 code units and then trimmed: then
    the session stored for the connection holds the truncated and trimmed
    values (at most 30 code units each, so over-length values are cut, not
    refused) and the room is notified; otherwise the handler emits nothing
    and leaves the registry and the rooms as they were. *)
Theorem C4_join_validation (st : Server) (sid : SocketId)
    (un rm : jsstring) (now : Z) :
  let u := JsString.trim (JsString.slice0 30 un) in
  let r := JsString.trim (JsString.slice0 30 rm) in
  let res := on_join st sid (JStr un) (JStr rm) now in
  (u <> [] /\ r <> [] /\
   joined (fst res) sid (mkSession u r) /\
   List.length u <= 30 /\ List.length r <= 30 /\
   snd res <> [])
  \/
  (~ (u <> [] /\ r <> []) /\ res = (st, [])).
Proof.
  intros u r res.
  destruct (valid_join (JStr un) (JStr rm)) eqn:V.
  - left. pose proof V as V'. apply valid_join_strings in V' as [Hu Hr].
    subst res. rewrite (on_join_valid st sid _ _ now V). simpl.
    repeat split; auto.
    + unfold joined; simpl. apply get_set_same.
    + apply (safe_length 30 (JStr un)).
    + apply (safe_length 30 (JStr rm)).
    + discriminate.
  - right. split.
    + intros H. apply valid_join_strings in H. congruence.
    + apply on_join_invalid; auto.
Qed.

(** A username of 40 letters is stored cut to its first 30; a join whose
    username is only white space changes nothing. *)
Example join_truncates_and_drops :
  on_join (state_after [Connect sockA]) sockA
          (JStr (repeat 97%N 40)) (JStr lobby) 1 =
    (mkServer [(sockA, mkSession (repeat 97%N 30) lobby)]
              [(sockA, sockA); (sockA, lobby)],
     [ mkEmission lobby (Some sockA) []
         (EvSystem (repeat 97%N 30 ++ lit " joined the room") 1);
       mkEmission lobby None [sockA] (EvRoomUsers [repeat 97%N 30]) ]) /\
  on_join init sockA (JStr (lit "   ")) (JStr lobby) 1 = (init, []).
Proof. split; reflexivity. Qed.

(* ------------------------------------------------------------------ *)
(** ** One session per connection *)

(** C1.  In every state the server reaches, the registry holds at most one
    entry per connection; a successful [join] of a connection that already
    has a session puts the new (username, room) in place of the old one, in
    the same entry: the connection has exactly one entry afterwards and the
    registry has the same keys, in the same order, as before. *)
Theorem C1_one_session_per_connection (inputs : list Input) (sid : SocketId) :
  JsMap.entries_for sid (users (state_after inputs)) <= 1 /\
  forall (old : Session) (u r : JsVal) (now : Z),
    joined (state_after inputs) sid old ->
    valid_join u r = true ->
    let st' := fst (on_join (state_after inputs) sid u r now) in
    joined st' sid (mkSession (safe 30 u) (safe 30 r)) /\
    JsMap.entries_for sid (users st') = 1 /\
    JsMap.keys (users st') = JsMap.keys (users (state_after inputs)) /\
    List.length (users st') = List.length (users (state_after inputs)).
Proof.
  pose proof (consistent_state_after inputs) as [Hnd _].
  split; [apply entries_for_NoDup; exact Hnd|].
  intros old u r now Hold V st'. subst st'.
  rewrite (on_join_valid _ sid u r now V); simpl.
  assert (J : JsMap.get sid
    (JsMap.set sid (mkSession (safe 30 u) (safe 30 r))
       (users (state_after inputs))) = Some (mkSession (safe 30 u) (safe 30 r)))
    by apply get_set_same.
  repeat split.
  - exact J.
  - apply Nat.le_antisymm.
    + apply entries_for_NoDup, NoDup_keys_set; exact Hnd.
    + eapply entries_for_present; exact J.
  - eapply keys_set_present; exact Hold.
  - eapply length_set_present; exact Hold.
Qed.

Lemma C1_one_session_per_connection_witness :
  joined (state_after two_in_lobby) sockA (mkSession alice lobby) /\
  valid_join (JStr alice) (JStr den) = true /\
  joined (fst (on_join (state_after two_in_lobby) sockA
                 (JStr alice) (JStr den) 9))
         sockA (mkSession alice den) /\
  JsMap.entries_for sockA
    (users (fst (on_join (state_after two_in_lobby) sockA
                   (JStr alice) (JStr den) 9))) = 1.
Proof.
  assert (J : joined (state_after two_in_lobby) sockA (mkSession alice lobby))
    by reflexivity.
  assert (V : valid_join (JStr alice) (JStr den) = true) by reflexivity.
  split; [exact J|]. split; [exact V|].
  destruct (proj2 (C1_one_session_per_connection two_in_lobby sockA)
              (mkSession alice lobby) (JStr alice) (JStr den) 9%Z J V)
    as (H1 & H2 & _).
  split; [exact H1 | exact H2].
Defined.

(* ------------------------------------------------------------------ *)
(** ** Room membership *)

Lemma joined_In (st : Server) (sid : SocketId) (s : Session) :
  consistent st -> (joined st sid s <-> In (sid, s) (users st)).
Proof.
  intros [Hnd _]. unfold joined. split.
  - apply get_In.
  - apply In_get; exact Hnd.
Qed.

(** Every member of a room, in the registry's sense, is in the socket.io
    room of that name. *)
Lemma member_in_room (st : Server) (r : jsstring) (sid : SocketId) :
  consistent st -> member_of st r sid -> In (sid, r) (rooms st).
Proof.
  intros [_ Hmem] (s & Hj & <-). apply Hmem; exact Hj.
Qed.

Lemma roster_members (st : Server) (r u : jsstring) :
  consistent st ->
  (In u (getRoomUsers (users st) r) <->
   exists sid s, joined st sid s /\ room s = r /\ username s = u).
Proof.
  intros Hc. rewrite getRoomUsers_In. split.
  - intros (sid & s & Hin & Hr & Hu). exists sid, s.
    split; [apply joined_In; auto | auto].
  - intros (sid & s & Hj & Hr & Hu). exists sid, s.
    split; [apply joined_In; auto | auto].
Qed.

(** The [disconnect] step, spelled out in its two cases. *)
Lemma step_disconnect_joined (st : Server) (sid : SocketId) (now : Z)
    (user : Session) :
  joined st sid user ->
  step st (Disconnect sid now) =
  (mkServer (JsMap.delete sid (users st)) (Adapter.delAll sid (rooms st)),
   [ socket_to (Adapter.delAll sid (rooms st)) sid (room user)
       (EvSystem (username user ++ lit " left the room") now);
     io_to (Adapter.delAll sid (rooms st)) (room user)
       (EvRoomUsers
          (getRoomUsers (JsMap.delete sid (users st)) (room user))) ]).
Proof.
  unfold joined; intros H. simpl. unfold on_disconnect; simpl.
  rewrite H. reflexivity.
Qed.

Lemma step_disconnect_unjoined (st : Server) (sid : SocketId) (now : Z) :
  JsMap.get sid (users st) = None ->
  step st (Disconnect sid now) =
  (mkServer (users st) (Adapter.delAll sid (rooms st)), []).
Proof.
  intros H. simpl. unfold on_disconnect; simpl. rewrite H. reflexivity.
Qed.

Lemma users_after_disconnect (st : Server) (sid : SocketId) (now : Z) :
  users (fst (step st (Disconnect sid now))) = JsMap.delete sid (users st).
Proof.
  destruct (JsMap.get sid (users st)) as [user|] eqn:G.
  - rewrite (step_disconnect_joined st sid now user G). reflexivity.
  - rewrite (step_disconnect_unjoined st sid now G). simpl.
    clear now. induction (users st) as [|[k v] m IH]; simpl in *; auto.
    destruct (JsString.eqb k sid); [discriminate|].
    rewrite <- IH; auto.
Qed.

Lemma roster_after_delete (st : Server) (sid : SocketId) (r u : jsstring) :
  consistent st ->
  (In u (getRoomUsers (JsMap.delete sid (users st)) r) <->
   exists sid' s,
     sid' <> sid /\ joined st sid' s /\ room s = r /\ username s = u).
Proof.
  intros Hc. rewrite getRoomUsers_In. split.
  - intros (sid' & s & Hin & Hr & Hu). apply delete_In in Hin as [Hin Hne].
    exists sid', s. split; auto. split; [apply joined_In; auto | auto].
  - intros (sid' & s & Hne & Hj & Hr & Hu). exists sid', s.
    split; auto. apply delete_In. split; auto. apply joined_In; auto.
Qed.

(** C2.  In every state the server reaches and for every room name, the
    usernames [getRoomUsers] returns are those of the connections whose
    current session names that room; once a connection has disconnected it
    has no registry entry, and the roster of any room is made of the sessions
    of the other connections only. *)
Theorem C2_getRoomUsers_members (inputs : list Input) (r : jsstring) :
  let st := state_after inputs in
  (forall u,
     In u (getRoomUsers (users st) r) <->
     exists sid s, joined st sid s /\ room s = r /\ username s = u) /\
  (forall sid now,
     let st' := fst (step st (Disconnect sid now)) in
     JsMap.get sid (users st') = None /\
     forall u,
       In u (getRoomUsers (users st') r) <->
       exists sid' s,
         sid' <> sid /\ joined st sid' s /\ room s = r /\ username s = u).
Proof.
  intros st. pose proof (consistent_state_after inputs) as Hc. fold st in Hc.
  split.
  - intros u. apply roster_members; exact Hc.
  - intros sid now st'. subst st'. rewrite users_after_disconnect. split.
    + apply get_delete_same.
    + intros u. apply roster_after_delete; exact Hc.
Qed.

(** On the sample session the roster is in joining order. *)
Example roster_two_in_lobby :
  getRoomUsers (users (state_after two_in_lobby)) lobby = [alice; bob] /\
  getRoomUsers
    (users (fst (step (state_after two_in_lobby) (Disconnect sockB 7))))
    lobby = [alice].
Proof. split; reflexivity. Qed.

(* ------------------------------------------------------------------ *)
(** ** Notices and rosters on join and on disconnect *)






(** The disconnect scenario of the sample session: bob leaves, alice gets
    the notice and the roster without bob. *)
Example disconnect_two_in_lobby :
  snd (step (state_after two_in_lobby) (Disconnect sockB 7)) =
  [ mkEmission lobby (Some sockB) [sockA]
      (EvSystem (lit "bob left the room") 7);
    mkEmission lobby None [sockA] (EvRoomUsers [alice]) ].
Proof. reflexivity. Qed.

(* ------------------------------------------------------------------ *)
(** ** Text and media messages *)

Lemma on_message_joined (st : Server) (sid : SocketId) (user : Session)
    (text : JsVal) (now_id now_ts : Z) :
  joined st sid user ->
  on_message st sid text now_id now_ts =
  if JsString.is_empty (safe 2000 text) then (st, [])
  else (st, [ io_to (rooms st) (room user)
                (EvMessage (sid ++ lit "-" ++ JsString.of_Z now_id)
                   (username user) (safe 2000 text) now_ts) ]).
Proof. unfold joined, on_message. intros ->. reflexivity. Qed.

Lemma on_media_joined (st : Server) (sid : SocketId) (user : Session)
    (url mimetype : JsVal) (now_id now_ts : Z) :
  joined st sid user ->
  on_media st sid url mimetype now_id now_ts =
  match as_string url with
  | None => (st, [])
  | Some url_ =>
      if negb (JsString.startsWith (lit "/uploads/") url_) then (st, [])
      else (st, [ io_to (rooms st) (room user)
                    (EvMedia (sid ++ lit "-" ++ JsString.of_Z now_id)
                       (username user) url_ (ToString mimetype) now_ts) ])
  end.
Proof. unfold joined, on_media. intros ->. reflexivity. Qed.

(** An emission addressed with [io.to] to the room of a joined connection
    reaches every connection whose session names that room, the sender
    included. *)
Lemma io_to_whole_room (st : Server) (sid : SocketId) (user : Session)
    (ev : ServerEvent) :
  consistent st -> joined st sid user ->
  (forall sid', member_of st (room user) sid' ->
                In sid' (recipients (io_to (rooms st) (room user) ev))) /\
  In sid (recipients (io_to (rooms st) (room user) ev)).
Proof.
  intros Hc Hj. split.
  - intros sid' Hmem. apply io_to_recipients.
    apply (member_in_room st _ _ Hc Hmem).
  - apply io_to_recipients. apply (member_in_room st _ _ Hc).
    exists user; split; auto.
Qed.

(** C5 as stated fails: the text made of 2000 spaces followed by "hi" does
    not trim to empty (it trims to "hi"), and yet the handler, which cuts the
    text to its first 2000 code units before trimming, emits nothing. *)
Lemma C5_padded_text_dropped :
  joined (state_after two_in_lobby) sockA (mkSession alice lobby) /\
  JsString.trim padded = hi /\
  on_message (state_after two_in_lobby) sockA (JStr padded) 5 5 =
  (state_after two_in_lobby, []).
Proof. vm_compute. repeat split; reflexivity. Qed.

(** C5, amended.  For a [message] event of a joined connection, from any
    state the server reaches, with the text in its string form: if the first
    2000 code units of the text trim to empty (as they do whenever the whole
    text trims to empty) nothing is emitted; otherwise one message event is
    emitted to the room of the sender's session, carrying the text truncated
    to 2000 code units and then trimmed, the sender's username and the clock
    reading taken for the timestamp, and it reaches every connection whose
    session names that room, the sender included.  The state is unchanged
    either way. *)
Theorem C5_message_broadcast (inputs : list Input) (sid : SocketId)
    (user : Session) (text : JsVal) (now_id now_ts : Z) :
  joined (state_after inputs) sid user ->
  let st := state_after inputs in
  let safeText := JsString.trim (JsString.slice0 2000 (ToString text)) in
  (JsString.trim (ToString text) = [] -> safeText = []) /\
  ((safeText = [] /\ on_message st sid text now_id now_ts = (st, []))
   \/
   (safeText <> [] /\ List.length safeText <= 2000 /\
    exists e id,
      on_message st sid text now_id now_ts = (st, [e]) /\
      to_room e = room user /\ except e = None /\
      payload e = EvMessage id (username user) safeText now_ts /\
      (forall sid', member_of st (room user) sid' ->
                    In sid' (recipients e)) /\
      In sid (recipients e))).
Proof.
  intros Hj st safeText.
  pose proof (consistent_state_after inputs) as Hc. fold st in Hc, Hj.
  split; [apply trim_slice0_nil|].
  rewrite (on_message_joined st sid user text now_id now_ts Hj).
  fold safeText. change (safe 2000 text) with safeText.
  destruct (JsString.is_empty safeText) eqn:E.
  - left. apply is_empty_true in E. auto.
  - right. apply is_empty_false in E. split; auto.
    split; [apply (safe_length 2000 text)|].
    do 2 eexists. split; [reflexivity|].
    split; [reflexivity|]. split; [reflexivity|]. split; [reflexivity|].
    apply io_to_whole_room; auto.
Qed.

Lemma C5_message_broadcast_witness :
  joined (state_after two_in_lobby) sockA (mkSession alice lobby) /\
  exists e,
    on_message (state_after two_in_lobby) sockA (JStr hi) 3 3 =
      (state_after two_in_lobby, [e]) /\
    recipients e = [sockA; sockB] /\
    payload e = EvMessage (lit "sockA-3") alice hi 3.
Proof.
  assert (J : joined (state_after two_in_lobby) sockA (mkSession alice lobby))
    by reflexivity.
  split; [exact J|].
  destruct (C5_message_broadcast two_in_lobby sockA (mkSession alice lobby)
              (JStr hi) 3 3 J) as [_ [[E _]|(_ & _ & e & id & E & _)]].
  - vm_compute in E. discriminate E.
  - exists e. split; [exact E|].
    vm_compute in E. inversion E; subst e. split; reflexivity.
Defined.



(* ------------------------------------------------------------------ *)
(** ** Synthetic message ids *)

(** C9 as stated fails: the id is not the connection id followed directly by
    the timestamp.  A hyphen stands between the two, and the reading of the
    clock that goes into the id is taken separately from the one stored as
    the timestamp, so the two can differ. *)
Lemma C9_id_is_not_plain_concatenation :
  snd (on_message (state_after two_in_lobby) sockA (JStr hi) 5 5) =
    [ mkEmission lobby None [sockA; sockB]
        (EvMessage (lit "sockA-5") alice hi 5) ] /\
  sockA ++ JsString.of_Z 5 = lit "sockA5" /\
  lit "sockA-5" <> lit "sockA5" /\
  snd (on_message (state_after two_in_lobby) sockA (JStr hi) 999 1000) =
    [ mkEmission lobby None [sockA; sockB]
        (EvMessage (lit "sockA-999") alice hi 1000) ].
Proof. repeat split; try reflexivity. discriminate. Qed.

(** C9, amended.  The id of every message and media event a joined
    connection causes is its connection id, a hyphen, and the decimal form of
    the clock reading taken when the id is built (a reading of its own, next
    to the one stored as the timestamp); so two different texts sent by one
    connection under the same reading get the same id. *)
Theorem C9_synthetic_id (st : Server) (sid : SocketId) (user : Session)
    (now_id : Z) :
  joined st sid user ->
  let id := sid ++ lit "-" ++ JsString.of_Z now_id in
  (forall text now_ts e,
     In e (snd (on_message st sid text now_id now_ts)) ->
     exists t, payload e = EvMessage id (username user) t now_ts) /\
  (forall url mimetype now_ts e,
     In e (snd (on_media st sid url mimetype now_id now_ts)) ->
     exists u m, payload e = EvMedia id (username user) u m now_ts) /\
  (exists e1 e2,
     snd (on_message st sid (JStr (lit "a")) now_id now_id) = [e1] /\
     snd (on_message st sid (JStr (lit "b")) now_id now_id) = [e2] /\
     payload e1 = EvMessage id (username user) (lit "a") now_id /\
     payload e2 = EvMessage id (username user) (lit "b") now_id /\
     payload e1 <> payload e2).
Proof.
  intros Hj id. split; [|split].
  - intros text now_ts e.
    rewrite (on_message_joined st sid user text now_id now_ts Hj).
    destruct (JsString.is_empty (safe 2000 text)); simpl; [tauto|].
    intros [<-|[]]. eexists; reflexivity.
  - intros url mimetype now_ts e.
    rewrite (on_media_joined st sid user url mimetype now_id now_ts Hj).
    destruct (as_string url) as [url_|]; [|simpl; tauto].
    destruct (negb (JsString.startsWith (lit "/uploads/") url_));
      cbn [snd In]; [tauto|].
    intros [<-|[]]. do 2 eexists; reflexivity.
  - rewrite !(on_message_joined st sid user _ now_id now_id Hj).
    do 2 eexists. repeat split; try reflexivity.
    simpl. intros H. inversion H.
Qed.

Lemma C9_synthetic_id_witness :
  joined (state_after two_in_lobby) sockB (mkSession bob lobby) /\
  exists e1 e2,
    snd (on_message (state_after two_in_lobby) sockB (JStr (lit "a")) 8 8)
      = [e1] /\
    snd (on_message (state_after two_in_lobby) sockB (JStr (lit "b")) 8 8)
      = [e2] /\
    payload e1 = EvMessage (lit "sockB-8") bob (lit "a") 8 /\
    payload e2 = EvMessage (lit "sockB-8") bob (lit "b") 8.
Proof.
  assert (J : joined (state_after two_in_lobby) sockB (mkSession bob lobby))
    by reflexivity.
  split; [exact J|].
  destruct (C9_synthetic_id (state_after two_in_lobby) sockB
              (mkSession bob lobby) 8 J)
    as (_ & _ & e1 & e2 & E1 & E2 & P1 & P2 & _).
  exists e1, e2. repeat split; assumption.
Defined.

(* ------------------------------------------------------------------ *)
(** ** Text that is not a string *)

(** C10.  For a [message] event of a joined connection, from any state the
    server reaches: when the payload has no text field the handler does not
    drop the event but emits a message with the text "undefined" to the
    sender's room, the sender included.  The same holds of every text that
    is not a string and that [String] converts: it is taken in its [String]
    form, truncated to 2000 code units and trimmed; when that is empty (as
    for an empty array) nothing is emitted, otherwise one message carrying it
    goes to everyone whose session names the sender's room, the sender
    included. *)
Theorem C10_text_coerced (inputs : list Input) (sid : SocketId)
    (user : Session) (now_id now_ts : Z) :
  joined (state_after inputs) sid user ->
  let st := state_after inputs in
  let id := sid ++ lit "-" ++ JsString.of_Z now_id in
  (exists e,
     on_message st sid JUndefined now_id now_ts = (st, [e]) /\
     to_room e = room user /\
     payload e = EvMessage id (username user) (lit "undefined") now_ts /\
     (forall sid', member_of st (room user) sid' -> In sid' (recipients e)) /\
     In sid (recipients e)) /\
  (forall text,
     as_string text = None ->
     let coerced := JsString.trim (JsString.slice0 2000 (ToString text)) in
     (coerced = [] /\ on_message st sid text now_id now_ts = (st, []))
     \/
     (coerced <> [] /\
      exists e,
        on_message st sid text now_id now_ts = (st, [e]) /\
        to_room e = room user /\
        payload e = EvMessage id (username user) coerced now_ts /\
        (forall sid', member_of st (room user) sid' ->
                      In sid' (recipients e)) /\
        In sid (recipients e))).
Proof.
  intros Hj st id.
  pose proof (consistent_state_after inputs) as Hc. fold st in Hc, Hj.
  split.
  - rewrite (on_message_joined st sid user JUndefined now_id now_ts Hj).
    change (safe 2000 JUndefined) with (lit "undefined").
    cbn [JsString.is_empty lit map list_ascii_of_string].
    eexists. split; [reflexivity|]. split; [reflexivity|].
    split; [reflexivity|]. apply io_to_whole_room; auto.
  - intros text _ coerced.
    rewrite (on_message_joined st sid user text now_id now_ts Hj).
    change (safe 2000 text) with coerced.
    destruct (JsString.is_empty coerced) eqn:E.
    + left. apply is_empty_true in E. auto.
    + right. apply is_empty_false in E. split; [exact E|].
      eexists. split; [reflexivity|]. split; [reflexivity|].
      split; [reflexivity|]. apply io_to_whole_room; auto.
Qed.

(** What [String] gives for the values that are not strings: [null], the
    booleans, a plain object; an empty array gives the empty string and is
    dropped. *)
Example coerced_texts :
  safe 2000 JNull = lit "null" /\
  safe 2000 (JBool false) = lit "false" /\
  safe 2000 (JObj (lit "[object Object]")) = lit "[object Object]" /\
  on_message (state_after two_in_lobby) sockA (JObj []) 6 6 =
    (state_after two_in_lobby, []).
Proof. repeat split; reflexivity. Qed.

Lemma C10_text_coerced_witness :
  joined (state_after two_in_lobby) sockA (mkSession alice lobby) /\
  exists e,
    on_message (state_after two_in_lobby) sockA JUndefined 6 6 =
      (state_after two_in_lobby, [e]) /\
    payload e = EvMessage (lit "sockA-6") alice (lit "undefined") 6 /\
    In sockA (recipients e).
Proof.
  assert (J : joined (state_after two_in_lobby) sockA (mkSession alice lobby))
    by reflexivity.
  split; [exact J|].
  destruct (C10_text_coerced two_in_lobby sockA (mkSession alice lobby) 6 6 J)
    as [(e & E & _ & P & _ & S) _].
  exists e. split; [exact E|]. split; [exact P | exact S].
Defined.

(* ------------------------------------------------------------------ *)
(** ** Who a broadcast reaches *)

(** Every emission of a step is an [io.to] or a [socket.to] against the room
    memberships the step ends with. *)
Lemma emission_shape (st : Server) (i : Input) (e : Emission) :
  In e (snd (step st i)) ->
  recipients e =
    match except e with
    | None => Adapter.sockets_in (to_room e) (rooms (fst (step st i)))
    | Some s =>
        filter (fun x => negb (Adapter.is_member x s (rooms (fst (step st i)))))
               (Adapter.sockets_in (to_room e) (rooms (fst (step st i))))
    end.
Proof.
  destruct i as [sid|sid u r now|sid text t1 t2
    |sid url mt t1 t2|sid|sid|sid now]; simpl.
  - tauto.
  - destruct (on_join_cases st sid u r now) as
      [(_ & _ & _ & _ & ->)|(_ & ->)]; simpl; [|tauto].
    intros [<-|[<-|[]]]; reflexivity.
  - unfold on_message. destruct (JsMap.get sid (users st)); simpl; [|tauto].
    destruct (JsString.is_empty (safe 2000 text)); simpl; [tauto|].
    intros [<-|[]]; reflexivity.
  - unfold on_media. destruct (JsMap.get sid (users st)); simpl; [|tauto].
    destruct (as_string url); simpl; [|tauto].
    destruct (negb _); simpl; [tauto|].
    intros [<-|[]]; reflexivity.
  - unfold on_typing. destruct (JsMap.get sid (users st)); simpl; [|tauto].
    intros [<-|[]]; reflexivity.
  - unfold on_stop_typing.
    destruct (JsMap.get sid (users st)); simpl; [|tauto].
    intros [<-|[]]; reflexivity.
  - unfold on_disconnect; simpl.
    destruct (JsMap.get sid (users st)); simpl; [|tauto].
    intros [<-|[<-|[]]]; reflexivity.
Qed.

(** What does hold of every broadcast: it reaches each connection whose
    session, after the step, names the addressed room, unless the connection
    is in the room that bears the id of the excluded socket. *)
Lemma broadcast_reaches_members (inputs : list Input) (i : Input)
    (e : Emission) (sid : SocketId) :
  In e (snd (step (state_after inputs) i)) ->
  member_of (fst (step (state_after inputs) i)) (to_room e) sid ->
  (forall s, except e = Some s ->
             ~ in_room (fst (step (state_after inputs) i)) s sid) ->
  In sid (recipients e).
Proof.
  intros He Hm Hx.
  assert (Hc : consistent (fst (step (state_after inputs) i)))
    by apply consistent_step, consistent_state_after.
  rewrite (emission_shape _ _ _ He).
  pose proof (member_in_room _ _ _ Hc Hm) as Hin.
  apply sockets_in_In in Hin.
  destruct (except e) as [s|]; auto.
  apply filter_In. split; auto.
  apply negb_true_iff.
  destruct (Adapter.is_member sid s _) eqn:E; auto.
  apply is_member_In in E. elim (Hx s eq_refl). exact E.
Qed.

(** C3.  After alice's connection joined the lobby and then the den, its
    session names the den and the lobby's roster lists bob alone; still a
    message bob sends to the lobby reaches alice's connection, which never
    left the socket.io room of its first join. *)
Theorem C3_old_room_still_delivers :
  joined (state_after rejoined) sockA (mkSession alice den) /\
  getRoomUsers (users (state_after rejoined)) lobby = [bob] /\
  snd (step (state_after rejoined) (Message sockB (JStr hi) 4 4)) =
    [ mkEmission lobby None [sockA; sockB]
        (EvMessage (lit "sockB-4") bob hi 4) ].
Proof. repeat split; reflexivity. Qed.

(* ------------------------------------------------------------------ *)
(** ** More on [trim] *)

Lemma trimStart_snoc (l : jsstring) (c : N) :
  JsString.is_ws c = false ->
  JsString.trimStart (l ++ [c]) = JsString.trimStart l ++ [c].
Proof.
  intros Hc. induction l as [|x l IH]; simpl.
  - rewrite Hc; reflexivity.
  - destruct (JsString.is_ws x); auto.
Qed.

Lemma trimEnd_cons (c : N) (r : jsstring) :
  JsString.is_ws c = false ->
  JsString.trimEnd (c :: r) = c :: JsString.trimEnd r.
Proof.
  intros Hc. unfold JsString.trimEnd. simpl rev.
  rewrite trimStart_snoc by exact Hc.
  rewrite rev_app_distr. reflexivity.
Qed.

Lemma trimStart_idem (s : jsstring) :
  JsString.trimStart (JsString.trimStart s) = JsString.trimStart s.
Proof.
  induction s as [|c s IH]; simpl; auto.
  destruct (JsString.is_ws c) eqn:E; auto. simpl. rewrite E. reflexivity.
Qed.

Lemma trimEnd_idem (s : jsstring) :
  JsString.trimEnd (JsString.trimEnd s) = JsString.trimEnd s.
Proof.
  unfold JsString.trimEnd. rewrite rev_involutive, trimStart_idem.
  reflexivity.
Qed.

(** A trimmed string is empty or starts with a code unit that is not white
    space. *)
Lemma trim_shape (s : jsstring) :
  JsString.trim s = [] \/
  exists c r, JsString.is_ws c = false /\
              JsString.trimStart s = c :: r /\
              JsString.trim s = c :: JsString.trimEnd r.
Proof.
  unfold JsString.trim.
  destruct (JsString.trimStart s) as [|c r] eqn:E; [left; reflexivity|].
  right. pose proof (trimStart_head s c r E) as Hc.
  exists c, r. repeat split; auto. apply trimEnd_cons; exact Hc.
Qed.

Lemma trim_idem (s : jsstring) :
  JsString.trim (JsString.trim s) = JsString.trim s.
Proof.
  destruct (trim_shape s) as [E|(c & r & Hc & _ & E)].
  - rewrite E. reflexivity.
  - unfold JsString.trim at 1. rewrite E. simpl JsString.trimStart.
    rewrite Hc. rewrite <- E. unfold JsString.trim. apply trimEnd_idem.
Qed.

(** Cutting a trimmed, non-empty string to its first [n >= 1] code units
    and trimming again leaves something: the first code unit stays. *)
Lemma trim_slice0_trim_nonempty (n : nat) (s : jsstring) :
  1 <= n -> JsString.trim s <> [] ->
  JsString.trim (JsString.slice0 n (JsString.trim s)) <> [].
Proof.
  intros Hn Hs. destruct (trim_shape s) as [E|(c & r & Hc & _ & E)];
    [congruence|].
  rewrite E. destruct n as [|n]; [lia|].
  unfold JsString.slice0, JsString.trim. simpl firstn.
  simpl JsString.trimStart. rewrite Hc.
  rewrite trimEnd_cons by exact Hc. discriminate.
Qed.

(** Within the bound, truncation and a second trim change nothing. *)
Lemma safe_of_trimmed (n : nat) (s : jsstring) :
  List.length (JsString.trim s) <= n ->
  safe n (JStr (JsString.trim s)) = JsString.trim s.
Proof.
  intros Hl. unfold safe, JsString.slice0. simpl ToString.
  rewrite firstn_all2 by exact Hl. apply trim_idem.
Qed.

Lemma safe_clean (n : nat) (v : JsVal) :
  safe n v <> [] -> clean n (safe n v).
Proof.
  intros H. repeat split; auto.
  - apply safe_length.
  - unfold safe. apply trim_idem.
Qed.

Lemma clean_safe (n : nat) (s : jsstring) :
  clean n s -> safe n (JStr s) = s.
Proof.
  intros (_ & Hl & Ht). rewrite <- Ht at 1.
  rewrite safe_of_trimmed; rewrite Ht; auto.
Qed.

(* ------------------------------------------------------------------ *)
(** ** Stored sessions *)

Lemma get_set_inv (k k2 : SocketId) (v s : Session) (m : JsMap.t) :
  JsMap.get k2 (JsMap.set k v m) = Some s ->
  (k2 = k /\ s = v) \/ (k2 <> k /\ JsMap.get k2 m = Some s).
Proof.
  destruct (JsString.eqb k2 k) eqn:E.
  - apply jseqb_eq in E; subst k2. rewrite get_set_same.
    intros H; inversion H; auto.
  - apply jseqb_neq in E. rewrite get_set_other by exact E. auto.
Qed.

Lemma get_delete_inv (k k2 : SocketId) (s : Session) (m : JsMap.t) :
  JsMap.get k2 (JsMap.delete k m) = Some s ->
  k2 <> k /\ JsMap.get k2 m = Some s.
Proof.
  destruct (JsString.eqb k2 k) eqn:E.
  - apply jseqb_eq in E; subst k2. rewrite get_delete_same. discriminate.
  - apply jseqb_neq in E. rewrite get_delete_other by exact E. auto.
Qed.

(** The registry a step leaves, from the registry it finds. *)
Lemma users_step (st : Server) (i : Input) :
  users (fst (step st i)) =
  match i with
  | Join sid u r _ =>
      if valid_join u r
      then JsMap.set sid (mkSession (safe 30 u) (safe 30 r)) (users st)
      else users st
  | Disconnect sid _ => JsMap.delete sid (users st)
  | _ => users st
  end.
Proof.
  destruct i as [sid|sid u r now|sid text t1 t2
    |sid url mt t1 t2|sid|sid|sid now].
  - reflexivity.
  - simpl step. destruct (valid_join u r) eqn:V.
    + rewrite (on_join_valid st sid u r now V). reflexivity.
    + rewrite (on_join_invalid st sid u r now V). reflexivity.
  - simpl. unfold on_message. destruct (JsMap.get sid (users st)); auto.
    destruct (JsString.is_empty (safe 2000 text)); auto.
  - simpl. unfold on_media. destruct (JsMap.get sid (users st)); auto.
    destruct (as_string url); auto. destruct (negb _); auto.
  - simpl. unfold on_typing. destruct (JsMap.get sid (users st)); auto.
  - simpl. unfold on_stop_typing. destruct (JsMap.get sid (users st)); auto.
  - apply users_after_disconnect.
Qed.

Lemma run_snoc_state (inputs : list Input) (i : Input) (st : Server) :
  fst (run st (inputs ++ [i])) = fst (step (fst (run st inputs)) i).
Proof.
  revert st; induction inputs as [|j rest IH]; intros st; simpl.
  - destruct (step st i); reflexivity.
  - destruct (step st j) as [st1 out1]. specialize (IH st1).
    destruct (run st1 (rest ++ [i])); destruct (run st1 rest).
    simpl in *. exact IH.
Qed.

(** Something that holds at the start and that every step keeps holds in
    every state the server reaches. *)
Lemma reachable_ind (P : Server -> Prop) :
  P init ->
  (forall st i, consistent st -> P st -> P (fst (step st i))) ->
  forall inputs, P (state_after inputs).
Proof.
  intros H0 Hs inputs. unfold state_after.
  assert (G : forall st, consistent st -> P st ->
                         P (fst (run st inputs))).
  { induction inputs as [|i rest IH]; intros st Hc Hp; simpl; auto.
    pose proof (Hs st i Hc Hp) as Hp1.
    pose proof (consistent_step st i Hc) as Hc1.
    destruct (step st i) as [st1 out1]; simpl in *.
    specialize (IH st1 Hc1 Hp1).
    destruct (run st1 rest); simpl in *; auto. }
  apply G; [apply consistent_init | exact H0].
Qed.

Lemma registry_clean (inputs : list Input) (sid : SocketId) (s : Session) :
  joined (state_after inputs) sid s ->
  clean 30 (username s) /\ clean 30 (room s).
Proof.
  revert sid s. apply (reachable_ind
    (fun st => forall sid s, joined st sid s ->
                             clean 30 (username s) /\ clean 30 (room s))).
  - intros sid s H. discriminate H.
  - intros st i _ IH sid s. unfold joined. rewrite users_step.
    destruct i as [x|x u r now|x text t1 t2|x url mt t1 t2|x|x|x now];
      try (apply IH).
    + destruct (valid_join u r) eqn:V; [|apply IH].
      apply valid_join_true in V as (_ & _ & Hu & Hr).
      intros H. apply get_set_inv in H as [[_ ->]|[_ H]]; [|eapply IH; eauto].
      simpl. split; apply safe_clean; auto.
    + intros H. apply get_delete_inv in H as [_ H]. eapply IH; eauto.
Qed.

(** X1.  Every session the registry ever holds has a username and a room
    that are not empty, at most 30 code units long, and free of white space
    at both ends. *)
Theorem sessions_are_clean (inputs : list Input) (sid : SocketId)
    (s : Session) :
  joined (state_after inputs) sid s ->
  username s <> [] /\ List.length (username s) <= 30 /\
  JsString.trim (username s) = username s /\
  room s <> [] /\ List.length (room s) <= 30 /\
  JsString.trim (room s) = room s.
Proof.
  intros Hj. destruct (registry_clean inputs sid s Hj) as
    [(A & B & C) (D & E & F)]. repeat split; assumption.
Qed.

Lemma sessions_are_clean_witness :
  joined (state_after two_in_lobby) sockB (mkSession bob lobby) /\
  List.length bob <= 30 /\ JsString.trim lobby = lobby.
Proof.
  assert (J : joined (state_after two_in_lobby) sockB (mkSession bob lobby))
    by reflexivity.
  split; [exact J|].
  destruct (sessions_are_clean two_in_lobby sockB (mkSession bob lobby) J)
    as (_ & L & _ & _ & _ & T).
  split; [exact L | exact T].
Defined.

(** X2.  Replaying a stored session gives it back: a join that carries the
    username and the room of any session the registry holds is accepted and
    stores exactly that session for the joining connection, whatever the
    state it arrives in. *)
Theorem replayed_join_restores_session (inputs : list Input)
    (sid : SocketId) (s : Session) (st : Server) (sid' : SocketId)
    (now : Z) :
  joined (state_after inputs) sid s ->
  valid_join (JStr (username s)) (JStr (room s)) = true /\
  joined (fst (on_join st sid' (JStr (username s)) (JStr (room s)) now))
         sid' s.
Proof.
  intros Hj.
  destruct (registry_clean inputs sid s Hj) as [Cu Cr].
  pose proof (clean_safe 30 _ Cu) as Eu.
  pose proof (clean_safe 30 _ Cr) as Er.
  assert (V : valid_join (JStr (username s)) (JStr (room s)) = true).
  { apply valid_join_strings. rewrite Eu, Er.
    destruct Cu as [? _], Cr as [? _]. auto. }
  split; [exact V|].
  rewrite (on_join_valid st sid' _ _ now V). unfold joined; simpl.
  rewrite Eu, Er, get_set_same. destruct s; reflexivity.
Qed.

Lemma replayed_join_restores_session_witness :
  joined (state_after two_in_lobby) sockA (mkSession alice lobby) /\
  joined (fst (on_join init sockB (JStr alice) (JStr lobby) 9))
         sockB (mkSession alice lobby).
Proof.
  assert (J : joined (state_after two_in_lobby) sockA (mkSession alice lobby))
    by reflexivity.
  split; [exact J|].
  exact (proj2 (replayed_join_restores_session two_in_lobby sockA
                  (mkSession alice lobby) init sockB 9 J)).
Defined.

(* ------------------------------------------------------------------ *)
(** ** What the registry depends on *)

Lemma run_cons_state (st : Server) (i : Input) (rest : list Input) :
  fst (run st (i :: rest)) = fst (run (fst (step st i)) rest).
Proof.
  simpl. destruct (step st i) as [st1 out1]; simpl.
  destruct (run st1 rest); reflexivity.
Qed.

Lemma users_step_ext (st st' : Server) (i : Input) :
  users st = users st' ->
  users (fst (step st i)) = users (fst (step st' i)).
Proof. intros H. rewrite !users_step, H. reflexivity. Qed.

Lemma users_step_other (st : Server) (i : Input) :
  writes_registry i = false -> users (fst (step st i)) = users st.
Proof.
  intros H. rewrite users_step. destruct i; try reflexivity; discriminate.
Qed.

(** X3.  The registry is written by [join] and [disconnect] alone: after any
    sequence of inputs it is what the joins and disconnects of the sequence
    would have produced on their own, so no message, media, typing or
    stop-typing event, whatever its payload, ever alters a session. *)
Theorem registry_written_by_join_and_disconnect (inputs : list Input) :
  users (state_after inputs) =
  users (state_after (filter writes_registry inputs)).
Proof.
  unfold state_after.
  assert (G : forall st st', users st = users st' ->
    users (fst (run st inputs)) =
    users (fst (run st' (filter writes_registry inputs)))).
  { induction inputs as [|i rest IH]; intros st st' H; [exact H|].
    rewrite run_cons_state. simpl filter.
    destruct (writes_registry i) eqn:W.
    - rewrite run_cons_state. apply IH, users_step_ext, H.
    - apply IH. rewrite users_step_other by exact W. exact H. }
  apply G; reflexivity.
Qed.

(* ------------------------------------------------------------------ *)
(** ** Who speaks, and what is said *)

(** X4.  Whatever a handler emits in the name of a user (a message, a media
    message, a typing or stop-typing event) carries the username of the
    session of the connection the input came from and is addressed to the
    room of that session: a connection cannot speak under another name or
    into another room than those it joined with. *)
Theorem speaker_is_sender (st : Server) (i : Input) (e : Emission)
    (u : jsstring) :
  In e (snd (step st i)) ->
  speaker (payload e) = Some u ->
  exists s, joined st (sender i) s /\ username s = u /\ room s = to_room e.
Proof.
  unfold joined.
  destruct i as [sid|sid un rm now|sid text t1 t2
    |sid url mt t1 t2|sid|sid|sid now]; simpl.
  - tauto.
  - destruct (on_join_cases st sid un rm now) as
      [(_ & _ & _ & _ & ->)|(_ & ->)]; simpl; [|tauto].
    intros [<-|[<-|[]]]; discriminate.
  - unfold on_message.
    destruct (JsMap.get sid (users st)) as [user|]; simpl; [|tauto].
    destruct (JsString.is_empty (safe 2000 text)); simpl; [tauto|].
    intros [<-|[]]; simpl. intros H; inversion H. eauto.
  - unfold on_media.
    destruct (JsMap.get sid (users st)) as [user|]; simpl; [|tauto].
    destruct (as_string url); simpl; [|tauto].
    destruct (negb _); simpl; [tauto|].
    intros [<-|[]]; simpl. intros H; inversion H. eauto.
  - unfold on_typing.
    destruct (JsMap.get sid (users st)) as [user|]; simpl; [|tauto].
    intros [<-|[]]; simpl. intros H; inversion H. eauto.
  - unfold on_stop_typing.
    destruct (JsMap.get sid (users st)) as [user|]; simpl; [|tauto].
    intros [<-|[]]; simpl. intros H; inversion H. eauto.
  - unfold on_disconnect; simpl.
    destruct (JsMap.get sid (users st)) as [user|]; simpl; [|tauto].
    intros [<-|[<-|[]]]; discriminate.
Qed.

Lemma speaker_is_sender_witness :
  In (mkEmission lobby (Some sockB) [sockA] (EvTyping bob))
     (snd (step (state_after two_in_lobby) (Typing sockB))) /\
  speaker (EvTyping bob) = Some bob /\
  exists s, joined (state_after two_in_lobby) sockB s /\
            username s = bob /\ room s = lobby.
Proof.
  assert (H1 : In (mkEmission lobby (Some sockB) [sockA] (EvTyping bob))
                  (snd (step (state_after two_in_lobby) (Typing sockB))))
    by (left; reflexivity).
  assert (H2 : speaker (EvTyping bob) = Some bob) by reflexivity.
  split; [exact H1|]. split; [exact H2|].
  exact (speaker_is_sender (state_after two_in_lobby) (Typing sockB)
           (mkEmission lobby (Some sockB) [sockA] (EvTyping bob)) bob H1 H2).
Defined.

(** Each emission of a run is an emission of one of its steps. *)
Lemma run_emission (inputs : list Input) (st : Server) (e : Emission) :
  In e (snd (run st inputs)) ->
  exists pre i post,
    inputs = pre ++ i :: post /\ In e (snd (step (fst (run st pre)) i)).
Proof.
  revert st; induction inputs as [|i rest IH]; intros st; simpl; [tauto|].
  destruct (step st i) as [st1 out1] eqn:S.
  destruct (run st1 rest) as [st2 out2] eqn:R. simpl.
  rewrite in_app_iff. intros [H|H].
  - exists [], i, rest. simpl. rewrite S. auto.
  - specialize (IH st1). rewrite R in IH. simpl in IH.
    destruct (IH H) as (pre & j & post & -> & Hin).
    exists (i :: pre), j, post. split; [reflexivity|].
    rewrite run_cons_state, S. exact Hin.
Qed.

(** X5.  Every chat message the server ever emits carries a text that is
    not empty, is at most 2000 code units long and has no white space at
    either end. *)
Theorem emitted_texts_are_clean (inputs : list Input) (e : Emission)
    (id u text : jsstring) (ts : Z) :
  In e (snd (run init inputs)) ->
  payload e = EvMessage id u text ts ->
  text <> [] /\ List.length text <= 2000 /\ JsString.trim text = text.
Proof.
  intros Hin Hp.
  destruct (run_emission inputs init e Hin) as (pre & i & post & _ & He).
  revert He. generalize (fst (run init pre)). intros st.
  destruct i as [sid|sid un rm now|sid x t1 t2
    |sid url mt t1 t2|sid|sid|sid now]; simpl.
  - tauto.
  - destruct (on_join_cases st sid un rm now) as
      [(_ & _ & _ & _ & ->)|(_ & ->)]; simpl; [|tauto].
    intros [<-|[<-|[]]]; discriminate.
  - unfold on_message.
    destruct (JsMap.get sid (users st)) as [user|]; simpl; [|tauto].
    destruct (JsString.is_empty (safe 2000 x)) eqn:E; simpl; [tauto|].
    intros [<-|[]]. simpl in Hp. inversion Hp; subst.
    apply is_empty_false in E. apply (safe_clean 2000 x E).
  - unfold on_media.
    destruct (JsMap.get sid (users st)) as [user|]; simpl; [|tauto].
    destruct (as_string url); simpl; [|tauto].
    destruct (negb _); simpl; [tauto|].
    intros [<-|[]]; discriminate.
  - unfold on_typing.
    destruct (JsMap.get sid (users st)) as [user|]; simpl; [|tauto].
    intros [<-|[]]; discriminate.
  - unfold on_stop_typing.
    destruct (JsMap.get sid (users st)) as [user|]; simpl; [|tauto].
    intros [<-|[]]; discriminate.
  - unfold on_disconnect; simpl.
    destruct (JsMap.get sid (users st)) as [user|]; simpl; [|tauto].
    intros [<-|[<-|[]]]; discriminate.
Qed.

Lemma emitted_texts_are_clean_witness :
  In (mkEmission lobby None [sockA; sockB]
        (EvMessage (lit "sockA-3") alice hi 3))
     (snd (run init (two_in_lobby
                       ++ [Message sockA (JStr (lit "  hi  ")) 3 3]))) /\
  JsString.trim hi = hi.
Proof.
  assert (H : In (mkEmission lobby None [sockA; sockB]
                    (EvMessage (lit "sockA-3") alice hi 3))
     (snd (run init (two_in_lobby
                       ++ [Message sockA (JStr (lit "  hi  ")) 3 3]))))
    by (vm_compute; tauto).
  split; [exact H|].
  exact (proj2 (proj2 (emitted_texts_are_clean _ _ _ _ _ _ H eq_refl))).
Defined.

(** X6.  Every media message the server ever emits carries a url that
    starts with "/uploads/". *)
Theorem emitted_urls_are_uploads (inputs : list Input) (e : Emission)
    (id u url mimetype : jsstring) (ts : Z) :
  In e (snd (run init inputs)) ->
  payload e = EvMedia id u url mimetype ts ->
  JsString.startsWith (lit "/uploads/") url = true.
Proof.
  intros Hin Hp.
  destruct (run_emission inputs init e Hin) as (pre & i & post & _ & He).
  revert He. generalize (fst (run init pre)). intros st.
  destruct i as [sid|sid un rm now|sid x t1 t2
    |sid v mt t1 t2|sid|sid|sid now]; simpl.
  - tauto.
  - destruct (on_join_cases st sid un rm now) as
      [(_ & _ & _ & _ & ->)|(_ & ->)]; simpl; [|tauto].
    intros [<-|[<-|[]]]; discriminate.
  - unfold on_message.
    destruct (JsMap.get sid (users st)) as [user|]; simpl; [|tauto].
    destruct (JsString.is_empty (safe 2000 x)) eqn:E; simpl; [tauto|].
    intros [<-|[]]; discriminate.
  - unfold on_media.
    destruct (JsMap.get sid (users st)) as [user|]; [|simpl; tauto].
    destruct (as_string v) as [url_|]; [|simpl; tauto].
    destruct (JsString.startsWith (lit "/uploads/") url_) eqn:P;
      cbn [negb snd In]; [|tauto].
    intros [<-|[]]. cbn [payload io_to] in Hp. inversion Hp; subst.
    exact P.
  - unfold on_typing.
    destruct (JsMap.get sid (users st)) as [user|]; simpl; [|tauto].
    intros [<-|[]]; discriminate.
  - unfold on_stop_typing.
    destruct (JsMap.get sid (users st)) as [user|]; simpl; [|tauto].
    intros [<-|[]]; discriminate.
  - unfold on_disconnect; simpl.
    destruct (JsMap.get sid (users st)) as [user|]; simpl; [|tauto].
    intros [<-|[<-|[]]]; discriminate.
Qed.

Lemma emitted_urls_are_uploads_witness :
  In (mkEmission lobby None [sockA; sockB]
        (EvMedia (lit "sockB-4") bob (lit "/uploads/1-2.png")
           (lit "image/png") 5))
     (snd (run init (two_in_lobby
        ++ [Media sockB (JStr (lit "/uploads/1-2.png"))
              (JStr (lit "image/png")) 4 5]))) /\
  JsString.startsWith (lit "/uploads/") (lit "/uploads/1-2.png") = true.
Proof.
  assert (H : In (mkEmission lobby None [sockA; sockB]
        (EvMedia (lit "sockB-4") bob (lit "/uploads/1-2.png")
           (lit "image/png") 5))
     (snd (run init (two_in_lobby
        ++ [Media sockB (JStr (lit "/uploads/1-2.png"))
              (JStr (lit "image/png")) 4 5]))))
    by (vm_compute; tauto).
  split; [exact H|].
  exact (emitted_urls_are_uploads _ _ _ _ _ _ _ H eq_refl).
Defined.

(* ------------------------------------------------------------------ *)
(** ** Typing indicators on the server *)


(** On the sample session bob's typing reaches alice and not bob; with bob
    in the room that bears the id of alice's connection, alice's typing in
    the lobby does not reach him. *)
Example typing_samples :
  on_typing (state_after two_in_lobby) sockB =
    (state_after two_in_lobby,
     [ mkEmission lobby (Some sockB) [sockA] (EvTyping bob) ]) /\
  snd (on_typing (state_after (bob_moved_to_lobby
                     ++ [Join sockA (JStr alice) (JStr lobby) 3])) sockA) =
    [ mkEmission lobby (Some sockA) [] (EvTyping alice) ].
Proof. split; reflexivity. Qed.

(* ------------------------------------------------------------------ *)
(** ** Joining and leaving, composed *)

Lemma set_absent (k : SocketId) (v : Session) (m : JsMap.t) :
  JsMap.get k m = None -> JsMap.set k v m = m ++ [(k, v)].
Proof.
  induction m as [|[k' v'] m IH]; simpl; auto.
  destruct (JsString.eqb k' k); [discriminate|].
  intros H. rewrite (IH H). reflexivity.
Qed.

Lemma delete_absent (k : SocketId) (m : JsMap.t) :
  JsMap.get k m = None -> JsMap.delete k m = m.
Proof.
  induction m as [|[k' v'] m IH]; simpl; auto.
  destruct (JsString.eqb k' k); [discriminate|].
  intros H. rewrite (IH H). reflexivity.
Qed.

Lemma delete_set (k : SocketId) (v : Session) (m : JsMap.t) :
  JsMap.delete k (JsMap.set k v m) = JsMap.delete k m.
Proof.
  induction m as [|[k' v'] m IH]; simpl.
  - rewrite jseqb_refl. reflexivity.
  - destruct (JsString.eqb k' k) eqn:E; simpl; rewrite E; auto.
    rewrite IH. reflexivity.
Qed.

(** X8.  A connection that joins and then closes leaves no trace in the
    registry: after the join and the disconnect the registry is the one from
    before the join without that connection's entry, and exactly the one
    from before when the connection had no session then. *)
Theorem join_then_disconnect_leaves_no_entry (st : Server) (sid : SocketId)
    (u r : JsVal) (t1 t2 : Z) :
  let st' := fst (step (fst (step st (Join sid u r t1))) (Disconnect sid t2)) in
  users st' = JsMap.delete sid (users st) /\
  (JsMap.get sid (users st) = None -> users st' = users st).
Proof.
  intros st'. subst st'.
  assert (E : users (fst (step (fst (step st (Join sid u r t1)))
                               (Disconnect sid t2)))
              = JsMap.delete sid (users st)).
  { rewrite users_step, users_step.
    destruct (valid_join u r); [apply delete_set | reflexivity]. }
  split; [exact E|]. intros H. rewrite E. apply delete_absent; exact H.
Qed.

Lemma join_then_disconnect_leaves_no_entry_witness :
  JsMap.get sockB (users (state_after [Connect sockA;
      Join sockA (JStr alice) (JStr lobby) 1])) = None /\
  users (fst (step (fst (step (state_after [Connect sockA;
      Join sockA (JStr alice) (JStr lobby) 1])
      (Join sockB (JStr bob) (JStr lobby) 2))) (Disconnect sockB 3)))
  = [(sockA, mkSession alice lobby)].
Proof.
  assert (H : JsMap.get sockB (users (state_after [Connect sockA;
      Join sockA (JStr alice) (JStr lobby) 1])) = None) by reflexivity.
  split; [exact H|].
  exact (proj2 (join_then_disconnect_leaves_no_entry
                  (state_after [Connect sockA;
                                Join sockA (JStr alice) (JStr lobby) 1])
                  sockB (JStr bob) (JStr lobby) 2 3) H).
Defined.

(** X9.  When a connection without a session joins, its username goes to
    the end of the roster of the room it joins, and the roster of every other
    room stays as it was. *)
Theorem first_join_appends_to_roster (st : Server) (sid : SocketId)
    (u r : JsVal) (now : Z) :
  JsMap.get sid (users st) = None ->
  valid_join u r = true ->
  let st' := fst (on_join st sid u r now) in
  getRoomUsers (users st') (safe 30 r) =
    getRoomUsers (users st) (safe 30 r) ++ [safe 30 u] /\
  forall other, other <> safe 30 r ->
    getRoomUsers (users st') other = getRoomUsers (users st) other.
Proof.
  intros Hn V st'. subst st'.
  rewrite (on_join_valid st sid u r now V). simpl fst. simpl users.
  rewrite (set_absent sid _ (users st) Hn).
  split.
  - rewrite !getRoomUsers_filter, filter_app, map_app. simpl.
    rewrite jseqb_refl. reflexivity.
  - intros other Hne. rewrite !getRoomUsers_filter, filter_app, map_app.
    simpl. assert (E : JsString.eqb (safe 30 r) other = false)
      by (apply jseqb_neq; congruence).
    rewrite E. simpl. apply app_nil_r.
Qed.

Lemma first_join_appends_to_roster_witness :
  JsMap.get sockB (users (state_after [Connect sockA;
      Join sockA (JStr alice) (JStr lobby) 1])) = None /\
  valid_join (JStr bob) (JStr lobby) = true /\
  getRoomUsers
    (users (fst (on_join (state_after [Connect sockA;
                            Join sockA (JStr alice) (JStr lobby) 1])
                   sockB (JStr bob) (JStr lobby) 2)))
    lobby = [alice; bob].
Proof.
  assert (H : JsMap.get sockB (users (state_after [Connect sockA;
      Join sockA (JStr alice) (JStr lobby) 1])) = None) by reflexivity.
  assert (V : valid_join (JStr bob) (JStr lobby) = true) by reflexivity.
  split; [exact H|]. split; [exact V|].
  exact (proj1 (first_join_appends_to_roster
                  (state_after [Connect sockA;
                                Join sockA (JStr alice) (JStr lobby) 1])
                  sockB (JStr bob) (JStr lobby) 2 H V)).
Defined.

(* ------------------------------------------------------------------ *)
(** ** Decimal renderings and message ids *)

Lemma lit_inj (a b : string) : lit a = lit b -> a = b.
Proof.
  unfold lit. intros H.
  rewrite <- (string_of_list_ascii_of_string a),
          <- (string_of_list_ascii_of_string b).
  f_equal. revert H.
  generalize (list_ascii_of_string a) (list_ascii_of_string b).
  intros l1; induction l1 as [|x l1 IH]; intros [|y l2]; simpl;
    try discriminate; auto.
  intros H; inversion H as [[Hx Hl]].
  f_equal; [|apply IH; exact Hl].
  rewrite <- (ascii_N_embedding x), <- (ascii_N_embedding y), Hx.
  reflexivity.
Qed.

Lemma uint_digits (d : Decimal.uint) (c : N) :
  In c (lit (NilEmpty.string_of_uint d)) -> (48 <= c <= 57)%N.
Proof.
  induction d; simpl; try tauto;
    (intros [<-|H]; [vm_compute; split; discriminate | auto]).
Qed.

Lemma nilzero_uint_digits (d : Decimal.uint) (c : N) :
  In c (lit (NilZero.string_of_uint d)) -> (48 <= c <= 57)%N.
Proof.
  destruct d; try apply uint_digits.
  simpl. intros [<-|[]]. vm_compute; split; discriminate.
Qed.

(** The decimal form of a number that is not negative is made of digits. *)
Lemma of_Z_digits (z : Z) (c : N) :
  (0 <= z)%Z -> In c (JsString.of_Z z) -> (48 <= c <= 57)%N.
Proof.
  intros Hz. unfold JsString.of_Z.
  destruct z as [|p|p]; [| |lia]; apply nilzero_uint_digits.
Qed.

(** In general it is made of digits and, in front, at most a minus sign. *)
Lemma of_Z_chars (z : Z) (c : N) :
  In c (JsString.of_Z z) -> (48 <= c <= 57)%N \/ c = 45%N.
Proof.
  unfold JsString.of_Z.
  destruct z as [|p|p]; try (intros H; left; revert H;
                              apply nilzero_uint_digits).
  simpl. intros [<-|H]; [right; reflexivity|].
  left. revert H. apply (nilzero_uint_digits (Pos.to_uint p)).
Qed.

Lemma of_Z_inj (a b : Z) : JsString.of_Z a = JsString.of_Z b -> a = b.
Proof.
  unfold JsString.of_Z. intros H. apply lit_inj in H.
  assert (N : forall z, Z.to_int z <> Decimal.Pos Decimal.Nil /\
                        Z.to_int z <> Decimal.Neg Decimal.Nil).
  { intros [|p|p]; simpl; split; try discriminate;
      intros E; inversion E as [E'];
      apply (DecimalPos.Unsigned.to_uint_nonnil p E'). }
  assert (E : Some (Z.to_int a) = Some (Z.to_int b)).
  { rewrite <- (NilZero.isi (Z.to_int a)) by apply N.
    rewrite <- (NilZero.isi (Z.to_int b)) by apply N.
    rewrite H. reflexivity. }
  inversion E as [E'].
  rewrite <- (DecimalZ.of_to a), <- (DecimalZ.of_to b), E'. reflexivity.
Qed.

Lemma split_at_first (x : N) (l1 l2 r1 r2 : list N) :
  ~ In x l1 -> ~ In x l2 ->
  l1 ++ x :: r1 = l2 ++ x :: r2 -> l1 = l2 /\ r1 = r2.
Proof.
  revert l2; induction l1 as [|a l1 IH]; intros [|b l2]; simpl;
    intros H1 H2 E.
  - inversion E; auto.
  - inversion E; subst. tauto.
  - inversion E; subst. tauto.
  - inversion E; subst.
    destruct (IH l2) as [-> ->]; auto.
Qed.

(** An id determines the connection and the reading it was built from. *)
Lemma id_inj (sid1 sid2 : SocketId) (a1 a2 : Z) :
  (0 <= a1)%Z -> (0 <= a2)%Z ->
  sid1 ++ lit "-" ++ JsString.of_Z a1 = sid2 ++ lit "-" ++ JsString.of_Z a2 ->
  sid1 = sid2 /\ a1 = a2.
Proof.
  intros H1 H2 E.
  apply (f_equal (@rev N)) in E.
  rewrite !rev_app_distr in E. simpl in E. rewrite <- !app_assoc in E.
  simpl in E.
  apply split_at_first in E.
  - destruct E as [Ea Es].
    apply (f_equal (@rev N)) in Ea, Es. rewrite !rev_involutive in Ea, Es.
    split; [exact Es | apply of_Z_inj; exact Ea].
  - intros Hin. apply in_rev in Hin. apply of_Z_digits in Hin; auto. lia.
  - intros Hin. apply in_rev in Hin. apply of_Z_digits in Hin; auto. lia.
Qed.

Lemma message_id_form (st : Server) sid text a b e :
  In e (snd (on_message st sid text a b)) ->
  exists u t, payload e =
              EvMessage (sid ++ lit "-" ++ JsString.of_Z a) u t b.
Proof.
  unfold on_message.
  destruct (JsMap.get sid (users st)) as [user|]; simpl; [|tauto].
  destruct (JsString.is_empty (safe 2000 text)); simpl; [tauto|].
  intros [<-|[]]. simpl. eauto.
Qed.

Lemma media_id_form (st : Server) sid url mt a b e :
  In e (snd (on_media st sid url mt a b)) ->
  exists u x m, payload e =
                EvMedia (sid ++ lit "-" ++ JsString.of_Z a) u x m b.
Proof.
  unfold on_media.
  destruct (JsMap.get sid (users st)) as [user|]; [|simpl; tauto].
  destruct (as_string url) as [url_|]; [|simpl; tauto].
  destruct (negb _); cbn [snd In]; [tauto|].
  intros [<-|[]]. simpl. eauto.
Qed.

Lemma emitted_id_form (st : Server) (i : Input) (e : Emission)
    (id : jsstring) :
  In e (snd (step st i)) -> event_id (payload e) = Some id ->
  id = sender i ++ lit "-" ++ JsString.of_Z (id_clock i).
Proof.
  destruct i as [sid|sid un rm now|sid text t1 t2
    |sid url mt t1 t2|sid|sid|sid now]; simpl step.
  - simpl; tauto.
  - destruct (on_join_cases st sid un rm now) as
      [(_ & _ & _ & _ & ->)|(_ & ->)]; simpl; [|tauto].
    intros [<-|[<-|[]]]; discriminate.
  - intros H. apply message_id_form in H as (u & t & ->).
    simpl. intros E; inversion E; reflexivity.
  - intros H. apply media_id_form in H as (u & x & m & ->).
    simpl. intros E; inversion E; reflexivity.
  - unfold on_typing.
    destruct (JsMap.get sid (users st)) as [user|]; simpl; [|tauto].
    intros [<-|[]]; discriminate.
  - unfold on_stop_typing.
    destruct (JsMap.get sid (users st)) as [user|]; simpl; [|tauto].
    intros [<-|[]]; discriminate.
  - unfold on_disconnect; simpl.
    destruct (JsMap.get sid (users st)) as [user|]; simpl; [|tauto].
    intros [<-|[<-|[]]]; discriminate.
Qed.

(** X10.  With clock readings that are not negative, the id of a chat or
    media message tells which connection sent it and under which reading:
    two emitted messages carry the same id only when they come from the same
    connection with the same reading taken for the id. *)
Theorem equal_ids_same_sender_and_reading
    (st1 st2 : Server) (i1 i2 : Input) (e1 e2 : Emission) (id : jsstring) :
  (0 <= id_clock i1)%Z -> (0 <= id_clock i2)%Z ->
  In e1 (snd (step st1 i1)) -> In e2 (snd (step st2 i2)) ->
  event_id (payload e1) = Some id -> event_id (payload e2) = Some id ->
  sender i1 = sender i2 /\ id_clock i1 = id_clock i2.
Proof.
  intros H1 H2 I1 I2 E1 E2.
  apply (emitted_id_form st1 i1 e1 id I1) in E1.
  apply (emitted_id_form st2 i2 e2 id I2) in E2.
  apply id_inj; auto. congruence.
Qed.

Lemma equal_ids_same_sender_and_reading_witness :
  sender (Message sockA (JStr (lit "a")) 8 8) =
  sender (Media sockA (JStr (lit "/uploads/x")) JUndefined 8 9) /\
  id_clock (Message sockA (JStr (lit "a")) 8 8) =
  id_clock (Media sockA (JStr (lit "/uploads/x")) JUndefined 8 9).
Proof.
  apply (equal_ids_same_sender_and_reading
           (state_after two_in_lobby) (state_after two_in_lobby)
           (Message sockA (JStr (lit "a")) 8 8)
           (Media sockA (JStr (lit "/uploads/x")) JUndefined 8 9)
           (mkEmission lobby None [sockA; sockB]
              (EvMessage (lit "sockA-8") alice (lit "a") 8))
           (mkEmission lobby None [sockA; sockB]
              (EvMedia (lit "sockA-8") alice (lit "/uploads/x")
                 (lit "undefined") 9))
           (lit "sockA-8")).
  - vm_compute; discriminate.
  - vm_compute; discriminate.
  - left; reflexivity.
  - left; reflexivity.
  - reflexivity.
  - reflexivity.
Defined.

(* ------------------------------------------------------------------ *)
(** ** The upload endpoint *)

Lemma includes_In (xs : list jsstring) (s : jsstring) :
  Upload.includes xs s = true <-> In s xs.
Proof.
  unfold Upload.includes. rewrite existsb_exists. split.
  - intros [x [Hin H]]. apply jseqb_eq in H; subst; auto.
  - intros H. exists s. split; auto. apply jseqb_refl.
Qed.

(** X11.  The error handler always answers with status 400 and one of the
    three messages "File type not allowed", "No file uploaded" and
    "Bad request", and it repeats the message of the error only when that is
    one of the first two.  The message with which the file filter refuses a
    type outside the allow-list is such a message, so it reaches the client
    as it is; the filter accepts exactly the listed types. *)
Theorem upload_errors_are_masked (err_message : JsVal) (mimetype : jsstring) :
  (exists m,
     Upload.error_handler err_message =
       Upload.mkResponse 400 (Upload.ErrorBody m) /\
     (m = lit "File type not allowed" \/ m = lit "No file uploaded" \/
      m = lit "Bad request") /\
     (m <> lit "Bad request" -> err_message = JStr m)) /\
  (forall message,
     Upload.fileFilter mimetype = Upload.Reject message ->
     Upload.error_handler (JStr message) =
       Upload.mkResponse 400 (Upload.ErrorBody message)) /\
  (Upload.fileFilter mimetype = Upload.Accept <->
   In mimetype Upload.ALLOWED_MIME_TYPES).
Proof.
  split; [|split].
  - unfold Upload.error_handler.
    destruct err_message as [| |b|n|s|o]; cbn [as_string];
      try (eexists; split; [reflexivity|]; split; [auto|congruence]).
    destruct (Upload.includes Upload.SAFE_ERROR_MESSAGES s) eqn:E.
    + eexists; split; [reflexivity|]. split; [|reflexivity].
      apply includes_In in E. simpl in E. intuition.
    + eexists; split; [reflexivity|]. split; [auto|congruence].
  - unfold Upload.fileFilter.
    destruct (Upload.includes Upload.ALLOWED_MIME_TYPES mimetype);
      [discriminate|].
    intros message H; inversion H; subst. reflexivity.
  - unfold Upload.fileFilter. rewrite <- includes_In.
    destruct (Upload.includes Upload.ALLOWED_MIME_TYPES mimetype);
      split; congruence.
Qed.

Lemma startsWith_app (p s : jsstring) : JsString.startsWith p (p ++ s) = true.
Proof.
  induction p as [|x p IH]; simpl; auto.
  rewrite N.eqb_refl. exact IH.
Qed.

(** X12.  A stored upload reaches the room: the route answers 200 with the
    url "/uploads/" followed by the stored file's name, the client emits a
    media event with that url and the file's mimetype, and for a joined
    connection, in any state the server reaches, the media handler lets it
    pass and sends it, url and mimetype unchanged, to everyone whose session
    names the sender's room, the sender included.  When no file was stored,
    and for every answer of the error handler, the client emits nothing. *)
Theorem stored_upload_is_announced (inputs : list Input) (sid : SocketId)
    (user : Session) (f : Upload.File) (now_id now_ts : Z) :
  joined (state_after inputs) sid user ->
  let st := state_after inputs in
  let url := lit "/uploads/" ++ Upload.file_filename f in
  Upload.upload_route (Some f) =
    Upload.mkResponse 200 (Upload.UploadBody url (Upload.file_mimetype f)) /\
  Client.on_upload_response (Upload.upload_route (Some f)) =
    ([Client.EmitMedia (JStr url) (JStr (Upload.file_mimetype f))], None) /\
  (exists e id,
     on_media st sid (JStr url) (JStr (Upload.file_mimetype f)) now_id now_ts
       = (st, [e]) /\
     payload e =
       EvMedia id (username user) url (Upload.file_mimetype f) now_ts /\
     to_room e = room user /\
     (forall sid', member_of st (room user) sid' -> In sid' (recipients e)) /\
     In sid (recipients e)) /\
  fst (Client.on_upload_response (Upload.upload_route None)) = [] /\
  (forall v, fst (Client.on_upload_response (Upload.error_handler v)) = []).
Proof.
  intros Hj st url.
  pose proof (consistent_state_after inputs) as Hc. fold st in Hc, Hj.
  split; [reflexivity|]. split; [reflexivity|]. split; [|split].
  - rewrite (on_media_joined st sid user _ _ now_id now_ts Hj).
    cbn [as_string]. unfold url. rewrite startsWith_app. cbn [negb].
    do 2 eexists. split; [reflexivity|]. split; [reflexivity|].
    split; [reflexivity|]. apply io_to_whole_room; auto.
  - reflexivity.
  - intros v. reflexivity.
Qed.

Lemma stored_upload_is_announced_witness :
  joined (state_after two_in_lobby) sockA (mkSession alice lobby) /\
  exists e,
    on_media (state_after two_in_lobby) sockA
      (JStr (lit "/uploads/7-9.png")) (JStr (lit "image/png")) 4 4
    = (state_after two_in_lobby, [e]) /\
    payload e = EvMedia (lit "sockA-4") alice (lit "/uploads/7-9.png")
                  (lit "image/png") 4.
Proof.
  assert (J : joined (state_after two_in_lobby) sockA (mkSession alice lobby))
    by reflexivity.
  split; [exact J|].
  destruct (stored_upload_is_announced two_in_lobby sockA
              (mkSession alice lobby)
              (Upload.mkFile (lit "7-9.png") (lit "image/png")) 4 4 J)
    as (_ & _ & (e & id & E & P & _) & _).
  exists e. split; [exact E|].
  vm_compute in E. inversion E; subst e. reflexivity.
Defined.

(** X13.  The name under which an upload is stored is made of letters,
    digits, dots and hyphens only, whatever extension the original name had
    and whatever the clock and the random number give: it holds no slash, no
    backslash and no NUL. *)
Theorem stored_filename_is_plain (extname : jsstring) (now rnd : Z) (c : N) :
  In c (Upload.filename extname now rnd) ->
  (Upload.is_ext_char c = true \/ c = 45%N) /\
  c <> 47%N /\ c <> 92%N /\ c <> 0%N.
Proof.
  intros H.
  assert (G : Upload.is_ext_char c = true \/ c = 45%N).
  { unfold Upload.filename in H. cbv zeta in H.
    rewrite !in_app_iff in H. destruct H as [H|[H|[H|H]]].
    - apply of_Z_chars in H as [H| ->]; auto.
      left. unfold Upload.is_ext_char.
      assert ((48 <=? c)%N = true /\ (c <=? 57)%N = true) as [-> ->]
        by (rewrite !N.leb_le; lia).
      rewrite !orb_true_r. reflexivity.
    - simpl in H. destruct H as [<-|[]]. auto.
    - apply of_Z_chars in H as [H| ->]; auto.
      left. unfold Upload.is_ext_char.
      assert ((48 <=? c)%N = true /\ (c <=? 57)%N = true) as [-> ->]
        by (rewrite !N.leb_le; lia).
      rewrite !orb_true_r. reflexivity.
    - unfold Upload.sanitize in H. apply filter_In in H as [_ H]. auto. }
  split; [exact G|].
  destruct G as [G| ->]; [|repeat split; discriminate].
  repeat split; intros ->; vm_compute in G; discriminate.
Qed.

Lemma stored_filename_is_plain_witness :
  Upload.filename (lit ".p/../n g") 1700000000000 42
    = lit "1700000000000-42.p..ng" /\
  In 112%N (Upload.filename (lit ".p/../n g") 1700000000000 42) /\
  112%N <> 47%N.
Proof.
  assert (H : In 112%N (Upload.filename (lit ".p/../n g") 1700000000000 42))
    by (vm_compute; tauto).
  split; [reflexivity|]. split; [exact H|].
  exact (proj1 (proj2 (stored_filename_is_plain
                         (lit ".p/../n g") 1700000000000 42 112%N H))).
Defined.

(* ------------------------------------------------------------------ *)
(** ** The client *)

Lemma set_add_In (x y : jsstring) (s : list jsstring) :
  In y (Client.set_add x s) <-> In y s \/ y = x.
Proof.
  unfold Client.set_add.
  destruct (existsb (JsString.eqb x) s) eqn:E.
  - split; auto. intros [H| ->]; auto.
    apply existsb_exists in E as [z [Hz Hx]].
    apply jseqb_eq in Hx; subst; auto.
  - rewrite in_app_iff; simpl. intuition.
Qed.

Lemma set_add_NoDup (x : jsstring) (s : list jsstring) :
  NoDup s -> NoDup (Client.set_add x s).
Proof.
  intros H. unfold Client.set_add.
  destruct (existsb (JsString.eqb x) s) eqn:E; auto.
  apply NoDup_app; auto.
  - repeat constructor; auto.
  - intros y Hy [<-|[]].
    assert (existsb (JsString.eqb x) s = true)
      by (apply existsb_exists; exists x; split; auto; apply jseqb_refl).
    congruence.
Qed.

Lemma set_delete_In (x y : jsstring) (s : list jsstring) :
  In y (Client.set_delete x s) <-> In y s /\ y <> x.
Proof.
  unfold Client.set_delete. rewrite filter_In, negb_true_iff, jseqb_neq.
  tauto.
Qed.

Lemma set_delete_NoDup (x : jsstring) (s : list jsstring) :
  NoDup s -> NoDup (Client.set_delete x s).
Proof. apply NoDup_filter. Qed.

Lemma set_delete_absent (x : jsstring) (s : list jsstring) :
  ~ In x s -> Client.set_delete x s = s.
Proof.
  unfold Client.set_delete. induction s as [|y s IH]; simpl; auto.
  intros H. assert (E : JsString.eqb y x = false)
    by (apply jseqb_neq; intros ->; tauto).
  rewrite E. simpl. rewrite IH; tauto.
Qed.

(** [add] then [delete] of a name that was not in the set gives the set
    back. *)
Lemma set_delete_add (x : jsstring) (s : list jsstring) :
  ~ In x s -> Client.set_delete x (Client.set_add x s) = s.
Proof.
  intros H. unfold Client.set_add.
  destruct (existsb (JsString.eqb x) s) eqn:E.
  - apply existsb_exists in E as [z [Hz Hx]].
    apply jseqb_eq in Hx; subst; tauto.
  - unfold Client.set_delete. rewrite filter_app. simpl.
    rewrite jseqb_refl. simpl. rewrite app_nil_r.
    apply set_delete_absent; exact H.
Qed.

Lemma indicator_empty (l : list jsstring) :
  Client.updateTypingIndicator l = [] <-> l = [].
Proof.
  unfold Client.updateTypingIndicator. destruct l as [|x l]; simpl.
  - tauto.
  - split; [|discriminate]. intros H.
    apply (f_equal (@List.length N)) in H. rewrite !length_app in H.
    destruct l; simpl in H; rewrite ?length_app in H; simpl in H; lia.
Qed.

Lemma client_well_formed_initial : Client.well_formed Client.initial.
Proof.
  split; simpl.
  - exists []; reflexivity.
  - exists []; reflexivity.
  - split; intros H; exact H.
  - split; [discriminate | intros H; elim H; reflexivity].
  - reflexivity.
  - constructor.
Qed.

Lemma client_well_formed_step (c : Client.t) (a : Client.Action) :
  Client.well_formed c -> Client.well_formed (fst (Client.step c a)).
Proof.
  intros [Hu Hr Hb Hs Hi Hn].
  destruct a as [u r| |text| |u|u|]; simpl.
  - unfold Client.join.
    destruct (JsString.is_empty (JsString.trim u)) eqn:Eu; simpl;
      [split; auto|].
    destruct (JsString.is_empty (JsString.trim r)) eqn:Er; simpl;
      [split; auto|].
    apply is_empty_false in Eu, Er.
    split; simpl; eauto; tauto.
  - apply client_well_formed_initial.
  - unfold Client.sendMessage.
    destruct (JsString.is_empty (JsString.trim text)); simpl; split; auto.
  - unfold Client.on_input.
    destruct (JsString.is_empty (Client.myRoom c)); simpl; split; auto.
  - split; simpl; auto. apply set_add_NoDup; auto.
  - split; simpl; auto. apply set_delete_NoDup; auto.
  - unfold Client.on_reconnect.
    destruct (negb _ && negb _); simpl; split; auto.
Qed.

Lemma client_run_cons (c : Client.t) (a : Client.Action) rest :
  Client.run c (a :: rest) =
  (fst (Client.run (fst (Client.step c a)) rest),
   snd (Client.step c a) ++ snd (Client.run (fst (Client.step c a)) rest)).
Proof.
  simpl. destruct (Client.step c a) as [c1 o1]; simpl.
  destruct (Client.run c1 rest); reflexivity.
Qed.

Lemma client_well_formed_run (actions : list Client.Action) (c : Client.t) :
  Client.well_formed c -> Client.well_formed (fst (Client.run c actions)).
Proof.
  revert c; induction actions as [|a rest IH]; intros c H; [exact H|].
  rewrite client_run_cons. simpl fst.
  apply IH, client_well_formed_step, H.
Qed.

Lemma client_run_emission (actions : list Client.Action) (c : Client.t)
    (x : Client.Emit) :
  Client.well_formed c ->
  In x (snd (Client.run c actions)) ->
  exists c' a,
    Client.well_formed c' /\ In x (snd (Client.step c' a)).
Proof.
  revert c; induction actions as [|a rest IH]; intros c Hc;
    [simpl; tauto|].
  rewrite client_run_cons. simpl snd. rewrite in_app_iff. intros [H|H].
  - exists c, a. auto.
  - apply (IH (fst (Client.step c a))); auto.
    apply client_well_formed_step; exact Hc.
Qed.

Lemma trimmed_valid (n : nat) (a : jsstring) :
  1 <= n -> JsString.trim a <> [] ->
  safe n (JStr (JsString.trim a)) <> [].
Proof.
  intros Hn H. unfold safe. simpl ToString.
  apply trim_slice0_trim_nonempty; auto.
Qed.

(** X14.  Whatever the user does in the page, every [join] the client
    sends, from the join button or replayed on a reconnection, passes both
    guards of the server's join handler and is stored as a session. *)
Theorem client_joins_are_accepted (actions : list Client.Action)
    (u r : jsstring) :
  In (Client.EmitJoin u r) (snd (Client.run Client.initial actions)) ->
  valid_join (JStr u) (JStr r) = true /\
  forall st sid now,
    joined (fst (on_join st sid (JStr u) (JStr r) now)) sid
           (mkSession (safe 30 (JStr u)) (safe 30 (JStr r))).
Proof.
  intros H.
  apply client_run_emission in H; [|apply client_well_formed_initial].
  destruct H as (c & a & [Hu Hr Hb Hs Hi Hn] & Hin).
  assert (V : valid_join (JStr u) (JStr r) = true).
  { apply valid_join_strings.
    destruct a as [ui ri| |text| |x|x|]; simpl in Hin.
    - unfold Client.join in Hin.
      destruct (JsString.is_empty (JsString.trim ui)) eqn:Eu; simpl in Hin;
        [tauto|].
      destruct (JsString.is_empty (JsString.trim ri)) eqn:Er; simpl in Hin;
        [tauto|].
      destruct Hin as [E|[]]. inversion E; subst.
      apply is_empty_false in Eu, Er.
      split; apply trimmed_valid; auto; lia.
    - destruct Hin as [E|[E|[]]]; discriminate.
    - unfold Client.sendMessage in Hin.
      destruct (JsString.is_empty (JsString.trim text)); simpl in Hin;
        [tauto|].
      destruct Hin as [E|[E|[]]]; discriminate.
    - unfold Client.on_input in Hin.
      destruct (JsString.is_empty (Client.myRoom c)); simpl in Hin;
        [tauto|]. destruct Hin as [E|[]]; discriminate.
    - tauto.
    - tauto.
    - unfold Client.on_reconnect in Hin.
      destruct (JsString.is_empty (Client.myUsername c)) eqn:Eu;
        simpl in Hin; [tauto|].
      destruct (JsString.is_empty (Client.myRoom c)) eqn:Er;
        simpl in Hin; [tauto|].
      destruct Hin as [E|[]]. inversion E; subst.
      apply is_empty_false in Eu, Er.
      destruct Hu as [a Ea], Hr as [b Eb]. rewrite Ea, Eb in *.
      split; apply trimmed_valid; auto; lia. }
  split; [exact V|]. intros st sid now.
  rewrite (on_join_valid st sid _ _ now V). unfold joined; simpl.
  apply get_set_same.
Qed.

Lemma client_joins_are_accepted_witness :
  In (Client.EmitJoin alice lobby)
     (snd (Client.run Client.initial
             [Client.ClickJoin (lit "  alice ") (lit "lobby");
              Client.Reconnected])) /\
  valid_join (JStr alice) (JStr lobby) = true.
Proof.
  assert (H : In (Client.EmitJoin alice lobby)
     (snd (Client.run Client.initial
             [Client.ClickJoin (lit "  alice ") (lit "lobby");
              Client.Reconnected]))) by (left; reflexivity).
  split; [exact H|].
  exact (proj1 (client_joins_are_accepted _ _ _ H)).
Defined.

(** X15.  The name the client keeps for itself and the name the server
    stores agree only up to 30 code units.  After a join from the page, with
    the join event handled by the server: when the trimmed username has at
    most 30 code units the server's session carries it unchanged and the
    client recognises it as its own; when it is longer the server stores a
    shorter name and the client's [isMe] test fails on it, so the client shows
    its own messages as somebody else's. *)
Theorem own_name_recognised_up_to_30 (c c' : Client.t)
    (usernameInput roomInput u r : jsstring)
    (st : Server) (sid : SocketId) (now : Z) :
  Client.join c usernameInput roomInput = (c', [Client.EmitJoin u r]) ->
  exists s,
    joined (fst (on_join st sid (JStr u) (JStr r) now)) sid s /\
    Client.myUsername c' = u /\
    (List.length u <= 30 ->
       username s = u /\ Client.isMe c' (username s) = true) /\
    (30 < List.length u -> Client.isMe c' (username s) = false).
Proof.
  unfold Client.join.
  destruct (JsString.is_empty (JsString.trim usernameInput)) eqn:Eu;
    simpl; [discriminate|].
  destruct (JsString.is_empty (JsString.trim roomInput)) eqn:Er;
    simpl; [discriminate|].
  intros H. inversion H; subst. clear H.
  apply is_empty_false in Eu, Er.
  assert (V : valid_join (JStr (JsString.trim usernameInput))
                         (JStr (JsString.trim roomInput)) = true).
  { apply valid_join_strings. split; apply trimmed_valid; auto; lia. }
  eexists. split.
  { rewrite (on_join_valid st sid _ _ now V). unfold joined; simpl.
    apply get_set_same. }
  split; [reflexivity|]. unfold Client.isMe. simpl. split.
  - intros Hl. rewrite safe_of_trimmed by exact Hl.
    split; [reflexivity | apply jseqb_refl].
  - intros Hl. apply jseqb_neq. intros E.
    pose proof (safe_length 30 (JStr (JsString.trim usernameInput))) as L.
    rewrite E in L. lia.
Qed.

Lemma own_name_recognised_up_to_30_witness :
  Client.join Client.initial (repeat 97%N 31) lobby =
    (Client.mk (repeat 97%N 31) lobby [] [] Client.ChatScreen,
     [Client.EmitJoin (repeat 97%N 31) lobby]) /\
  exists s,
    joined (fst (on_join init sockA (JStr (repeat 97%N 31)) (JStr lobby) 1))
           sockA s /\
    username s = repeat 97%N 30 /\
    Client.isMe (Client.mk (repeat 97%N 31) lobby [] [] Client.ChatScreen)
                (username s) = false.
Proof.
  assert (H : Client.join Client.initial (repeat 97%N 31) lobby =
    (Client.mk (repeat 97%N 31) lobby [] [] Client.ChatScreen,
     [Client.EmitJoin (repeat 97%N 31) lobby])) by reflexivity.
  split; [exact H|].
  destruct (own_name_recognised_up_to_30 Client.initial _ _ _ _ _
              init sockA 1 H) as (s & J & _ & _ & F).
  exists s. split; [exact J|]. split.
  - vm_compute in J. inversion J. reflexivity.
  - apply F. vm_compute. lia.
Defined.

(** X16.  A text the client sends is never dropped by the server: for a
    joined connection, in any state the server reaches, the message event
    that [sendMessage] emits is broadcast to the sender's room, the sender
    included, and when the trimmed text has at most 2000 code units the
    broadcast carries it unchanged. *)
Theorem sent_text_is_broadcast (inputs : list Input) (sid : SocketId)
    (user : Session) (c : Client.t) (messageInput text : jsstring)
    (now_id now_ts : Z) :
  joined (state_after inputs) sid user ->
  In (Client.EmitMessage text) (snd (Client.sendMessage c messageInput)) ->
  let st := state_after inputs in
  exists e id,
    on_message st sid (JStr text) now_id now_ts = (st, [e]) /\
    payload e = EvMessage id (username user) (safe 2000 (JStr text)) now_ts /\
    (List.length text <= 2000 -> safe 2000 (JStr text) = text) /\
    (forall sid', member_of st (room user) sid' -> In sid' (recipients e)) /\
    In sid (recipients e).
Proof.
  intros Hj Hin st.
  pose proof (consistent_state_after inputs) as Hc. fold st in Hc, Hj.
  unfold Client.sendMessage in Hin.
  destruct (JsString.is_empty (JsString.trim messageInput)) eqn:E;
    simpl in Hin; [tauto|].
  destruct Hin as [H|[H|[]]]; [|discriminate]. inversion H; subst text.
  apply is_empty_false in E.
  rewrite (on_message_joined st sid user _ now_id now_ts Hj).
  assert (N : JsString.is_empty
                (safe 2000 (JStr (JsString.trim messageInput))) = false).
  { apply is_empty_false, trimmed_valid; auto; lia. }
  rewrite N. do 2 eexists. split; [reflexivity|]. split; [reflexivity|].
  split; [apply safe_of_trimmed|]. apply io_to_whole_room; auto.
Qed.

Lemma sent_text_is_broadcast_witness :
  joined (state_after two_in_lobby) sockA (mkSession alice lobby) /\
  In (Client.EmitMessage hi)
     (snd (Client.sendMessage Client.initial (lit " hi "))) /\
  exists e,
    on_message (state_after two_in_lobby) sockA (JStr hi) 3 3 =
      (state_after two_in_lobby, [e]) /\
    In sockA (recipients e).
Proof.
  assert (J : joined (state_after two_in_lobby) sockA (mkSession alice lobby))
    by reflexivity.
  assert (H : In (Client.EmitMessage hi)
     (snd (Client.sendMessage Client.initial (lit " hi "))))
    by (left; reflexivity).
  split; [exact J|]. split; [exact H|].
  destruct (sent_text_is_broadcast two_in_lobby sockA (mkSession alice lobby)
              Client.initial (lit " hi ") hi 3 3 J H)
    as (e & id & E & _ & _ & _ & S).
  exists e. split; [exact E | exact S].
Defined.

(** X17.  Whatever happens in the page, the typing indicator shows text
    exactly while somebody is in the typing set, and the text is the one
    [updateTypingIndicator] computes from the set. *)
Theorem indicator_follows_typing_set (actions : list Client.Action) :
  let c := fst (Client.run Client.initial actions) in
  Client.typingEl c = Client.updateTypingIndicator (Client.typingUsers c) /\
  (Client.typingEl c = [] <-> Client.typingUsers c = []).
Proof.
  intros c.
  destruct (client_well_formed_run actions Client.initial
              client_well_formed_initial) as [_ _ _ _ Hi _].
  fold c in Hi. split; [exact Hi|]. rewrite Hi. apply indicator_empty.
Qed.

(** X18.  The typing set holds each username once, whatever happens in the
    page.  A stop-typing event removes its username however many typing
    events named it before, so of two users with one name the first to stop
    clears the name for both; and a typing event followed by the
    stop-typing event of a name that was not in the set gives the set
    back. *)
Theorem typing_set_is_a_set (actions : list Client.Action) (u : jsstring) :
  let c := fst (Client.run Client.initial actions) in
  NoDup (Client.typingUsers c) /\
  ~ In u (Client.typingUsers
            (fst (Client.run c [Client.GotTyping u; Client.GotTyping u;
                                Client.GotStopTyping u]))) /\
  (~ In u (Client.typingUsers c) ->
   Client.typingUsers
     (fst (Client.run c [Client.GotTyping u; Client.GotStopTyping u]))
   = Client.typingUsers c).
Proof.
  intros c.
  destruct (client_well_formed_run actions Client.initial
              client_well_formed_initial) as [_ _ _ _ _ Hn].
  fold c in Hn. split; [exact Hn|]. split.
  - simpl. intros H. apply set_delete_In in H. tauto.
  - intros H. simpl. apply set_delete_add; exact H.
Qed.

Lemma typing_set_is_a_set_witness :
  ~ In bob (Client.typingUsers
              (fst (Client.run Client.initial [Client.GotTyping alice]))) /\
  Client.typingUsers
    (fst (Client.run Client.initial
            [Client.GotTyping alice; Client.GotTyping bob;
             Client.GotStopTyping bob])) = [alice].
Proof.
  assert (H : ~ In bob (Client.typingUsers
              (fst (Client.run Client.initial [Client.GotTyping alice]))))
    by (simpl; intros [E|[]]; discriminate E).
  split; [exact H|].
  exact (proj2 (proj2 (typing_set_is_a_set [Client.GotTyping alice] bob)) H).
Defined.

(** X19.  The client sends typing events and replays its join only while
    the chat screen is shown: whatever happened before, on the login screen
    (as after the leave button) typing into the field and a reconnection
    send nothing, and on the chat screen they send a typing event and the
    join of the names the client holds. *)
Theorem client_is_silent_on_login_screen (actions : list Client.Action) :
  let c := fst (Client.run Client.initial actions) in
  (Client.screen c = Client.LoginScreen ->
   snd (Client.step c Client.TypeInput) = [] /\
   snd (Client.step c Client.Reconnected) = []) /\
  (Client.screen c = Client.ChatScreen ->
   snd (Client.step c Client.TypeInput) = [Client.EmitTyping] /\
   snd (Client.step c Client.Reconnected) =
     [Client.EmitJoin (Client.myUsername c) (Client.myRoom c)]) /\
  Client.screen (fst (Client.step c Client.ClickLeave)) = Client.LoginScreen.
Proof.
  intros c.
  destruct (client_well_formed_run actions Client.initial
              client_well_formed_initial) as [_ _ Hb Hs _ _].
  fold c in Hb, Hs. simpl. unfold Client.on_input, Client.on_reconnect.
  split; [|split; [|reflexivity]].
  - intros L.
    assert (R : Client.myRoom c = []).
    { destruct (Client.myRoom c) eqn:E; auto.
      assert (Client.screen c = Client.ChatScreen)
        by (apply Hs; discriminate). congruence. }
    rewrite R. simpl. rewrite andb_false_r. auto.
  - intros C. pose proof (proj1 Hs C) as R. pose proof (proj2 Hb R) as U.
    apply is_empty_false in R, U. rewrite R, U. auto.
Qed.

Lemma client_is_silent_on_login_screen_witness :
  Client.screen (fst (Client.run Client.initial
     [Client.ClickJoin alice lobby; Client.ClickLeave])) = Client.LoginScreen /\
  snd (Client.step (fst (Client.run Client.initial
     [Client.ClickJoin alice lobby; Client.ClickLeave])) Client.Reconnected)
  = [].
Proof.
  assert (H : Client.screen (fst (Client.run Client.initial
     [Client.ClickJoin alice lobby; Client.ClickLeave])) = Client.LoginScreen)
    by reflexivity.
  split; [exact H|].
  exact (proj2 (proj1 (client_is_silent_on_login_screen
                         [Client.ClickJoin alice lobby; Client.ClickLeave])
                  H)).
Defined.

(* ------------------------------------------------------------------ *)
(** ** Changing rooms, and events after the close *)

(** X20.  A join tells only those in the room that is joined.  When a
    connection that has a session in one room joins another, in any state the
    server reaches, both emissions of the handler are addressed to the new
    room and reach no other connection than those already in the socket.io
    room of that name: a member of the old room that never joined the new
    one gets no notice and no roster, although from then on the old room's
    roster is made of the other connections only. *)
Theorem rejoin_is_silent_in_old_room (inputs : list Input) (sid : SocketId)
    (old : Session) (u r : JsVal) (now : Z) :
  joined (state_after inputs) sid old ->
  valid_join u r = true ->
  room old <> safe 30 r ->
  let st := state_after inputs in
  let st' := fst (on_join st sid u r now) in
  (forall e, In e (snd (on_join st sid u r now)) ->
     to_room e = safe 30 r /\ to_room e <> room old /\
     forall sid', sid' <> sid -> ~ in_room st (safe 30 r) sid' ->
                  ~ In sid' (recipients e)) /\
  (forall name,
     In name (getRoomUsers (users st') (room old)) <->
     exists sid' s, sid' <> sid /\ joined st sid' s /\
                    room s = room old /\ username s = name).
Proof.
  intros Hj V Hne st st'.
  assert (Hc' : consistent st') by
    (apply (consistent_step st (Join sid u r now)), consistent_state_after).
  revert Hc'. subst st'.
  rewrite (on_join_valid st sid u r now V). simpl fst; simpl snd.
  set (st' := mkServer _ _). intros Hc'. split.
  - assert (G : forall sid', sid' <> sid -> ~ in_room st (safe 30 r) sid' ->
                  ~ In (sid', safe 30 r)
                       (Adapter.add sid (safe 30 r) (rooms st))).
    { intros sid' Hd Hout Hin. apply add_In in Hin as [Hin|Hin].
      - apply Hout. exact Hin.
      - inversion Hin. congruence. }
    intros e [<-|[<-|[]]]; (split; [reflexivity|]); (split; [simpl; auto|]);
      intros sid' Hd Hout Hrec.
    + apply socket_to_recipients in Hrec as [Hin _].
      exact (G sid' Hd Hout Hin).
    + apply io_to_recipients in Hrec. exact (G sid' Hd Hout Hrec).
  - intros name. rewrite (roster_members st' (room old) name Hc'). split.
    + intros (sid' & s & J & R & U). unfold joined in J. simpl in J.
      apply get_set_inv in J as [[_ ->]|[N J]].
      * simpl in R. congruence.
      * exists sid', s. auto.
    + intros (sid' & s & N & J & R & U). exists sid', s.
      split; [|auto]. unfold joined; simpl.
      rewrite get_set_other by exact N. exact J.
Qed.

Lemma rejoin_is_silent_in_old_room_witness :
  joined (state_after two_in_lobby) sockA (mkSession alice lobby) /\
  valid_join (JStr alice) (JStr den) = true /\
  getRoomUsers
    (users (fst (on_join (state_after two_in_lobby) sockA
                   (JStr alice) (JStr den) 9))) lobby = [bob] /\
  forall e,
    In e (snd (on_join (state_after two_in_lobby) sockA
                 (JStr alice) (JStr den) 9)) ->
    to_room e = den /\ ~ In sockB (recipients e).
Proof.
  assert (J : joined (state_after two_in_lobby) sockA (mkSession alice lobby))
    by reflexivity.
  assert (V : valid_join (JStr alice) (JStr den) = true) by reflexivity.
  assert (N : room (mkSession alice lobby) <> safe 30 (JStr den))
    by (vm_compute; discriminate).
  split; [exact J|]. split; [exact V|]. split; [reflexivity|].
  intros e He.
  destruct (proj1 (rejoin_is_silent_in_old_room two_in_lobby sockA
                     (mkSession alice lobby) (JStr alice) (JStr den) 9
                     J V N) e He) as (T & _ & S).
  split; [exact T|]. apply S.
  - vm_compute; discriminate.
  - unfold in_room. vm_compute. intuition discriminate.
Defined.

(** X21.  Once a connection has closed it has no session, so anything that
    still arrives in its name (a message, a media message, a typing or
    stop-typing event, a second disconnect) is dropped without any
    emission and without touching the registry. *)
Theorem closed_connection_is_ignored (st : Server) (sid : SocketId)
    (now : Z) (i : Input) :
  sender i = sid ->
  (forall u r t, i <> Join sid u r t) ->
  let st' := fst (step st (Disconnect sid now)) in
  JsMap.get sid (users st') = None /\
  snd (step st' i) = [] /\
  users (fst (step st' i)) = users st'.
Proof.
  intros Hs Hnj st'.
  assert (G : JsMap.get sid (users st') = None).
  { unfold st'. rewrite users_after_disconnect. apply get_delete_same. }
  split; [exact G|].
  destruct i as [x|x u r t|x text t1 t2|x url mt t1 t2|x|x|x t];
    simpl in Hs; subst x.
  - split; reflexivity.
  - elim (Hnj u r t). reflexivity.
  - simpl. unfold on_message. rewrite G. auto.
  - simpl. unfold on_media. rewrite G. auto.
  - simpl. unfold on_typing. rewrite G. auto.
  - simpl. unfold on_stop_typing. rewrite G. auto.
  - rewrite (step_disconnect_unjoined st' sid t G). auto.
Qed.

Lemma closed_connection_is_ignored_witness :
  snd (step (fst (step (state_after two_in_lobby) (Disconnect sockB 7)))
            (Message sockB (JStr hi) 8 8)) = [].
Proof.
  assert (H1 : sender (Message sockB (JStr hi) 8 8) = sockB) by reflexivity.
  assert (H2 : forall u r t,
             Message sockB (JStr hi) 8 8 <> Join sockB u r t)
    by (intros u r t; discriminate).
  exact (proj1 (proj2 (closed_connection_is_ignored
                         (state_after two_in_lobby) sockB 7
                         (Message sockB (JStr hi) 8 8) H1 H2))).
Defined.
